(** * Verification of the role-based access control checker

    A shallow embedding of [framework/wazuh/rbac/auth_context.py]
    (class [RBAChecker]) and the properties of its matching language:
    [MATCH], [MATCH$], [FIND], [FIND$] under [AND], [OR], [NOT].

    Layout: Python run-time values and the built-ins the class relies on,
    the regular-expression interface, the methods of [RBAChecker] in source
    order, the role objects and the constructor, and then the theorems. *)

From Stdlib Require Import List String Ascii ZArith Bool Arith Lia.
From Stdlib Require Import Permutation Sorted.
From Stdlib Require OrderedTypeEx.
Import ListNotations.
Open Scope string_scope.
Open Scope list_scope.

(** ** Exceptions and results

    Python code either returns or raises.  Only the exception classes that the
    modelled code can raise are listed. *)

Inductive exn : Set :=
| TypeError
| AttributeError
| JSONDecodeError.

Inductive result (A : Type) : Type :=
| Ok (a : A)
| Raise (e : exn).

Arguments Ok {A} a.
Arguments Raise {A} e.

Definition bind {A B : Type} (r : result A) (k : A -> result B) : result B :=
  match r with
  | Ok a => k a
  | Raise e => Raise e
  end.

Notation "x <- r ;; k" := (bind r (fun x => k))
  (at level 61, r at next level, right associativity).

Definition raises {A : Type} (r : result A) : bool :=
  match r with
  | Ok _ => false
  | Raise _ => true
  end.

(** ** Loops with early exit

    A [for] loop over a list threads a local state (here always a counter),
    and its body may [return] from the enclosing function or raise. *)

Inductive flow (R S : Type) : Type :=
| Continue (s : S)
| Return (r : R)
| Raised (e : exn).

Arguments Continue {R S} s.
Arguments Return {R S} r.
Arguments Raised {R S} e.

Section ForIn.
Context {X R S : Type}.
Variable body : X -> S -> flow R S.

Fixpoint for_in (xs : list X) (s : S) : flow R S :=
  match xs with
  | [] => Continue s
  | x :: rest =>
      match body x s with
      | Continue s' => for_in rest s'
      | Return r => Return r
      | Raised e => Raised e
      end
  end.
End ForIn.

(** ** JSON values as Python objects

    [json.loads] yields [None], [bool], numbers, [str], [list] and [dict]
    (string keys, insertion order kept, keys unique).  Numbers are the integers;
    floating-point numbers are outside the embedding.  A string is a sequence
    of 8-bit characters, compared by character code as Python compares code
    points.  A dictionary is an association list so that iteration order,
    which decides which exit of a loop is taken first, is part of the model.
    The interpreter's recursion limit is not modelled: the functions below
    recurse as deep as the value they are given. *)

Unset Elimination Schemes.
Inductive value : Type :=
| VNull
| VBool (b : bool)
| VNum (n : Z)
| VStr (s : string)
| VList (l : list value)
| VDict (d : list (string * value)).
Set Elimination Schemes.

Definition is_str (v : value) : bool :=
  match v with VStr _ => true | _ => false end.

Definition is_list (v : value) : bool :=
  match v with VList _ => true | _ => false end.

Definition is_dict (v : value) : bool :=
  match v with VDict _ => true | _ => false end.

Definition is_scalar (v : value) : bool :=
  match v with VList _ | VDict _ => false | _ => true end.

(** [key in d.keys()] and [d[key]]. *)
Fixpoint dict_get (key : string) (d : list (string * value)) : option value :=
  match d with
  | [] => None
  | (k, v) :: rest => if String.eqb key k then Some v else dict_get key rest
  end.

Definition dict_has (key : string) (d : list (string * value)) : bool :=
  match dict_get key d with Some _ => true | None => false end.

(** [bool] is a subclass of [int]: [True == 1] and [True < 2]. *)
Definition as_number (v : value) : option Z :=
  match v with
  | VBool b => Some (if b then 1%Z else 0%Z)
  | VNum n => Some n
  | _ => None
  end.

(** Python's [==] on JSON values; it never raises. *)
Fixpoint py_eq (a b : value) {struct a} : bool :=
  match a, b with
  | VNull, VNull => true
  | VStr s, VStr t => String.eqb s t
  | VList l, VList m =>
      (fix elements (l m : list value) {struct l} : bool :=
         match l, m with
         | [], [] => true
         | x :: l', y :: m' => py_eq x y && elements l' m'
         | _, _ => false
         end) l m
  | VDict d, VDict e =>
      Nat.eqb (List.length d) (List.length e) &&
      (fix entries (d : list (string * value)) : bool :=
         match d with
         | [] => true
         | (k, v) :: d' =>
             match dict_get k e with
             | Some w => py_eq v w
             | None => false
             end && entries d'
         end) d
  | _, _ =>
      match as_number a, as_number b with
      | Some x, Some y => Z.eqb x y
      | _, _ => false
      end
  end.

(** Python 3's [<]: numbers with numbers, strings with strings by code point,
    lists lexicographically (the first pair of unequal elements decides);
    every other pair raises [TypeError]. *)
Fixpoint py_lt (a b : value) {struct a} : result bool :=
  match a, b with
  | VStr s, VStr t => Ok (String.ltb s t)
  | VList l, VList m =>
      (fix elements (l m : list value) {struct l} : result bool :=
         match l, m with
         | [], [] => Ok false
         | [], _ :: _ => Ok true
         | _ :: _, [] => Ok false
         | x :: l', y :: m' => if py_eq x y then elements l' m' else py_lt x y
         end) l m
  | _, _ =>
      match as_number a, as_number b with
      | Some x, Some y => Ok (Z.ltb x y)
      | _, _ => Raise TypeError
      end
  end.

(** [sorted(l)]: the stable ascending arrangement of [l] under [<].  The model
    inserts the elements from left to right, each one behind the elements that
    are not greater, and raises at the first comparison that raises.  On a list
    whose elements are pairwise comparable the result does not depend on the
    sorting algorithm; a list that mixes numbers, strings, [None] or
    dictionaries raises here as it does in CPython. *)
Fixpoint sorted_insert (x : value) (acc : list value) : result (list value) :=
  match acc with
  | [] => Ok [x]
  | y :: rest =>
      lt <- py_lt x y ;;
      if lt then Ok (x :: y :: rest)
      else (rest' <- sorted_insert x rest ;; Ok (y :: rest'))
  end.

Fixpoint sorted_from (acc : list value) (l : list value) : result (list value) :=
  match l with
  | [] => Ok acc
  | x :: rest => acc' <- sorted_insert x acc ;; sorted_from acc' rest
  end.

Definition sorted (l : list value) : result (list value) := sorted_from [] l.

(** [len(v)]: defined on strings, lists and dictionaries. *)
Definition py_len (v : value) : result nat :=
  match v with
  | VStr s => Ok (String.length s)
  | VList l => Ok (List.length l)
  | VDict d => Ok (List.length d)
  | _ => Raise TypeError
  end.

(** [x in names] for a list of strings. *)
Definition str_in (x : string) (names : list string) : bool :=
  existsb (String.eqb x) names.

(** [s[i:-j]] for non-negative [i] and positive [j]. *)
Definition slice (i j : nat) (s : string) : string :=
  String.substring i (String.length s - j - i) s.

(** ** Regular expressions

    The class uses [re.compile] and [Pattern.match] of Python's standard
    library.  The development is parametric in the engine: [re_valid p] says
    that [re.compile(p)] succeeds, and [re_match p s] that
    [re.compile(p).match(s)] finds a match at the start of the string [s]. *)

Class ReEngine : Type := {
  re_valid : string -> bool;
  re_match : string -> string -> bool
}.

(** A compiled pattern object, identified by its [pattern] attribute. *)
Record Pattern : Set := { pattern : string }.

(** [regex.match(v)]: [TypeError] unless [v] is a string. *)
Definition Pattern_match `{ReEngine} (regex : Pattern) (v : value) : result bool :=
  match v with
  | VStr s => Ok (re_match (pattern regex) s)
  | _ => Raise TypeError
  end.

(** A reference engine for the fragment of the [re] syntax made of literal
    characters, [.], [^], [$] and the postfix [*].  As in Python, [*] with
    nothing to repeat, a repeated anchor and a doubled [*] do not compile.
    The other metacharacters are not part of the fragment and are rejected. *)
Module PyRe.

Inductive atom : Set :=
| Lit (c : ascii)
| AnyChar
| Bol
| Eol.

Inductive item : Set :=
| One (a : atom)
| Star (a : atom).

Definition outside_fragment (c : ascii) : bool :=
  existsb (Ascii.eqb c) (list_ascii_of_string "\()[]{}|+?").

Definition atom_of (c : ascii) : atom :=
  if Ascii.eqb c "." then AnyChar
  else if Ascii.eqb c "^" then Bol
  else if Ascii.eqb c "$" then Eol
  else Lit c.

Definition is_anchor (a : atom) : bool :=
  match a with Bol | Eol => true | _ => false end.

Fixpoint parse (p : string) : option (list item) :=
  match p with
  | EmptyString => Some []
  | String c rest =>
      if Ascii.eqb c "*" || outside_fragment c then None
      else
        match rest with
        | String "*" rest' =>
            if is_anchor (atom_of c) then None
            else option_map (cons (Star (atom_of c))) (parse rest')
        | _ => option_map (cons (One (atom_of c))) (parse rest)
        end
  end.

Definition newline : ascii := ascii_of_nat 10.

Definition accepts (a : atom) (c : ascii) : bool :=
  match a with
  | Lit c' => Ascii.eqb c' c
  | AnyChar => negb (Ascii.eqb c newline)
  | Bol | Eol => false
  end.

(** [$] holds at the end of the subject and before a final newline. *)
Definition at_end (s : string) : bool :=
  match s with
  | EmptyString => true
  | String c EmptyString => Ascii.eqb c newline
  | _ => false
  end.

(** Does some prefix of [s] match [items]?  [at_start] says whether no
    character of the subject has been consumed yet. *)
Fixpoint run (items : list item) (at_start : bool) (s : string) : bool :=
  match items with
  | [] => true
  | One Bol :: rest => at_start && run rest at_start s
  | One Eol :: rest => at_end s && run rest at_start s
  | One a :: rest =>
      match s with
      | String c s' => accepts a c && run rest false s'
      | EmptyString => false
      end
  | Star a :: rest =>
      (fix star (at_start : bool) (s : string) {struct s} : bool :=
         run rest at_start s ||
         match s with
         | String c s' => accepts a c && star false s'
         | EmptyString => false
         end) at_start s
  end.

Definition valid (p : string) : bool :=
  match parse p with Some _ => true | None => false end.

Definition matches (p s : string) : bool :=
  match parse p with Some items => run items true s | None => false end.

End PyRe.

Definition py_re : ReEngine :=
  {| re_valid := PyRe.valid; re_match := PyRe.matches |}.

(** ** The class [RBAChecker]

    Return values: the methods return [1] or [True] for success and [0] or
    [False] for failure; every caller either tests the truth of the result or
    adds it to a counter, where [True] counts as [1].  The model returns the
    truth value and adds [Nat.b2n] of it. *)

Definition _logical_operators : list string := ["AND"; "OR"; "NOT"].
Definition _functions : list string := ["MATCH"; "MATCH$"; "FIND"; "FIND$"].
Definition _initial_index_for_regex : nat := 2.
Definition _regex_prefix : string := "r'".

(** [self._logical_operators[i]] and [self._functions[i]]. *)
Definition logical_operator (i : nat) : string := nth i _logical_operators EmptyString.
Definition function_name (i : nat) : string := nth i _functions EmptyString.

(** [counter += call]: the call may raise. *)
Definition tally {R : Type} (call : result bool) (counter : nat) : flow R nat :=
  match call with
  | Ok b => Continue (counter + Nat.b2n b)
  | Raise e => Raised e
  end.

(** [if call: return True]: the call may raise. *)
Definition return_if {S : Type} (call : result bool) (s : S) : flow bool S :=
  match call with
  | Ok true => Return true
  | Ok false => Continue s
  | Raise e => Raised e
  end.

(** The result of a function whose last statement, after a loop, is
    [return fallback]. *)
Definition finish {S : Type} (loop : flow bool S) (fallback : S -> bool) : result bool :=
  match loop with
  | Continue s => Ok (fallback s)
  | Return r => Ok r
  | Raised e => Raise e
  end.

Section RBAChecker.
Context {engine : ReEngine}.

(** [self.authorization_context], set once by the constructor. *)
Variable authorization_context : value.

(** [self.authorization_context if auth_context is None else auth_context] *)
Definition bound_context (auth_context : value) : value :=
  match auth_context with
  | VNull => authorization_context
  | _ => auth_context
  end.

Definition check_regex (expression : value) : option Pattern :=
  match expression with
  | VStr expression =>
      if negb (String.prefix _regex_prefix expression) then None
      else
        let regex := slice _initial_index_for_regex 2 expression in
        if re_valid regex then Some {| pattern := regex |} else None
  | _ => None
  end.

Definition preprocess_to_list (role_chunk auth_chunk : value) : result (value * value) :=
  role_chunk <- match role_chunk with
                | VList l => (l' <- sorted l ;; Ok (VList l'))
                | _ => Ok role_chunk
                end ;;
  auth_chunk <- match auth_chunk with
                | VList l => (l' <- sorted l ;; Ok (VList l'))
                | _ => Ok auth_chunk
                end ;;
  Ok (role_chunk, auth_chunk).

(** The body of the inner loop of [process_lists], for one [value] of the
    context list and one [v] of the role list. *)
Definition process_pair (role_chunk auth_context : list value) (mode : string)
    (value v : value) (counter : nat) : flow bool nat :=
  match
    match check_regex v with
    | Some regex =>
        matched <- Pattern_match regex value ;;
        Ok (if matched then counter + 1 else counter)
    | None => Ok (if py_eq value v then counter + 1 else counter)
    end
  with
  | Raise e => Raised e
  | Ok counter =>
      if String.eqb mode (function_name 0) then
        if Nat.eqb counter (List.length role_chunk) then Return true
        else Continue counter
      else if String.eqb mode (function_name 1) then
        if Nat.eqb counter (List.length auth_context)
           && Nat.eqb counter (List.length role_chunk)
        then Return true
        else Continue counter
      else Continue counter
  end.

Definition process_lists (role_chunk auth_context : list value) (mode : string)
    : result bool :=
  finish
    (for_in
       (fun value counter =>
          for_in (process_pair role_chunk auth_context mode value) role_chunk counter)
       auth_context 0)
    (fun _ => false).

Definition set_mode (mode : string) : string :=
  if String.eqb mode (function_name 2) then function_name 0
  else if String.eqb mode (function_name 3) then function_name 1
  else mode.

(** [None] is the result of falling off the end: the operation is not
    satisfied (or the key is no logical operator). *)
Definition check_logic_operation (rule_key : string) (rule_value : value)
    (validator_counter : nat) : result (option bool) :=
  if String.eqb rule_key (logical_operator 0) then
    n <- py_len rule_value ;;
    Ok (if Nat.eqb validator_counter n then Some true else None)
  else if String.eqb rule_key (logical_operator 1) then
    Ok (if Nat.ltb 0 validator_counter then Some true else None)
  else if String.eqb rule_key (logical_operator 2) then
    n <- py_len rule_value ;;
    Ok (Some (if Nat.eqb validator_counter n then false else true))
  else Ok None.

(** The statements of [match_item] after the regex test of its [else]
    branch, down to the end of the function. *)
Definition match_item_tail (role_chunk auth_context : value) (mode : string)
    : result bool :=
  if py_eq role_chunk auth_context then Ok true
  else
    let role_chunk := if is_str role_chunk then VList [role_chunk] else role_chunk in
    match role_chunk, auth_context with
    | VList role_list, VList auth_list => process_lists role_list auth_list mode
    | VDict role_items, _ => Ok (Nat.eqb 0 (List.length role_items))
    | _, _ => Ok false
    end.

(** The [else] branch of [match_item]: at least one side is no dictionary. *)
Definition match_item_leaf (role_chunk auth_context : value) (mode : string)
    : result bool :=
  chunks <- preprocess_to_list role_chunk auth_context ;;
  let role_chunk := fst chunks in
  let auth_context := snd chunks in
  match check_regex role_chunk with
  | Some regex =>
      let auth_context :=
        if is_list auth_context then auth_context else VList [auth_context] in
      match
        for_in (fun context (s : unit) => return_if (Pattern_match regex context) s)
               (match auth_context with VList l => l | _ => [] end) tt
      with
      | Return r => Ok r
      | Raised e => Raise e
      | Continue _ => match_item_tail role_chunk auth_context mode
      end
  | None => match_item_tail role_chunk auth_context mode
  end.

(** [match_item].  In the loop over [role_chunk.items()], [role_chunk[key_rule]]
    is the value [value_rule] of the pair being visited, and
    [auth_context[key_auth]] the value paired with [key_auth]. *)
Fixpoint match_item (role_chunk auth_context : value) (mode : string)
    {struct role_chunk} : result bool :=
  let auth_context := bound_context auth_context in
  match role_chunk, auth_context with
  | VDict role_items, VDict auth_items =>
      finish
        (for_in
           (fun '(key_rule, value_rule) validator_counter =>
              match
                match check_regex (VStr key_rule) with
                | Some regex =>
                    for_in
                      (fun '(key_auth, value_auth) validator_counter =>
                         if re_match (pattern regex) key_auth
                         then tally (match_item value_rule value_auth mode)
                                    validator_counter
                         else Continue validator_counter)
                      auth_items validator_counter
                | None => Continue validator_counter
                end
              with
              | Continue validator_counter =>
                  match dict_get key_rule auth_items with
                  | Some value_auth =>
                      tally (match_item value_rule value_auth mode) validator_counter
                  | None => Continue validator_counter
                  end
              | stop => stop
              end)
           role_items 0)
        (fun validator_counter => Nat.eqb validator_counter (List.length role_items))
  | _, _ => match_item_leaf role_chunk auth_context mode
  end.

(** [find_item] once [auth_context] is bound.  The recursive calls of the
    source are on dictionaries, which the binding leaves unchanged. *)
Fixpoint find_item_in (role_chunk auth_context : value) (mode : string)
    {struct auth_context} : result bool :=
  let mode := set_mode mode in
  validator_counter <- match_item role_chunk auth_context mode ;;
  if (validator_counter : bool) then Ok true
  else
    match auth_context with
    | VDict items =>
        finish
          (for_in
             (fun '(key, value) (s : unit) =>
                match match_item role_chunk value mode with
                | Raise e => Raised e
                | Ok true => Return true
                | Ok false =>
                    match value with
                    | VDict _ => return_if (find_item_in role_chunk value mode) s
                    | VList l =>
                        for_in
                          (fun v (s : unit) =>
                             match v with
                             | VDict _ => return_if (find_item_in role_chunk v mode) s
                             | _ => Continue s
                             end)
                          l s
                    | _ => Continue s
                    end
                end)
             items tt)
          (fun _ => false)
    | _ => Raise AttributeError
    end.

Definition find_item (role_chunk auth_context : value) (mode : string) : result bool :=
  find_item_in role_chunk (bound_context auth_context) mode.

(** [check_rule]; the unused [role_id] is left out.  [rule[rule_key]] is the
    value [rule_value] of the pair being visited, and the calls of [match_item]
    and [find_item] leave [auth_context] at its default [None]. *)
Fixpoint check_rule (rule : value) : result bool :=
  match rule with
  | VDict items =>
      finish
        (for_in
           (fun '(rule_key, rule_value) (s : unit) =>
              if str_in rule_key _logical_operators then
                match
                  match rule_value with
                  | VList elements =>
                      for_in (fun element validator_counter =>
                                tally (check_rule element) validator_counter)
                             elements 0
                  | VDict _ => tally (check_rule rule_value) 0
                  | _ => Continue 0
                  end
                with
                | Continue validator_counter =>
                    match check_logic_operation rule_key rule_value validator_counter with
                    | Ok (Some result) => Return result
                    | Ok None => Continue s
                    | Raise e => Raised e
                    end
                | Return r => Return r
                | Raised e => Raised e
                end
              else if str_in rule_key _functions then
                if String.eqb rule_key (function_name 0)
                   || String.eqb rule_key (function_name 1)
                then return_if (match_item rule_value VNull rule_key) s
                else if String.eqb rule_key (function_name 2)
                        || String.eqb rule_key (function_name 3)
                then return_if (find_item rule_value VNull rule_key) s
                else Continue s
              else Continue s)
           items tt)
        (fun _ => false)
  | _ => Raise AttributeError
  end.

End RBAChecker.

(** ** Role objects, the constructor and the resolver

    A role is a mutable object with the attributes [id], [name] and [rule].
    The caller and the checker hold references to the same objects, so the
    objects live in a heap (a list indexed by address) and the constructor
    threads it. *)

Module Role.
Record t : Type := { id : Z; name : string; rule : value }.

(** [role.rule = v] *)
Definition set_rule (role : t) (v : value) : t :=
  {| id := id role; name := name role; rule := v |}.
End Role.

Definition heap : Type := list Role.t.

Fixpoint heap_set (h : heap) (address : nat) (role : Role.t) : heap :=
  match h, address with
  | [], _ => []
  | _ :: rest, O => role :: rest
  | r :: rest, S address' => r :: heap_set rest address' role
  end.

(** The [role] argument of the constructor. *)
Inductive role_argument : Set :=
| NoRole
| OneRole (role : nat)
| RoleList (roles : list nat).

(** The attributes of [self]. *)
Record Checker : Type := {
  self_authorization_context : value;
  self_roles_list : list nat
}.

Record Policy : Set := {
  actions : list string;
  resources : list string;
  effect : string
}.

(** What the list built by [run] can hold: a policy, or a generator object
    (created by a generator expression) that would yield policies when
    iterated.  Generator objects hash and compare by identity. *)
Inductive object : Set :=
| PolicyObject (p : Policy)
| GeneratorObject (address : nat) (pending : list Policy).

Definition Policy_eqb (p q : Policy) : bool :=
  (if list_eq_dec string_dec (actions p) (actions q) then true else false)
  && (if list_eq_dec string_dec (resources p) (resources q) then true else false)
  && String.eqb (effect p) (effect q).

Definition object_eqb (a b : object) : bool :=
  match a, b with
  | PolicyObject p, PolicyObject q => Policy_eqb p q
  | GeneratorObject i _, GeneratorObject j _ => Nat.eqb i j
  | _, _ => false
  end.

(** [set(l)], kept in order of first occurrence. *)
Fixpoint py_set (l : list object) : list object :=
  match l with
  | [] => []
  | x :: rest => x :: filter (fun y => negb (object_eqb x y)) (py_set rest)
  end.

(** A JSON reader for the texts [{}], [[]], [null], [true] and [false], used
    where a concrete reader is needed. *)
Definition json_literals (text : string) : option value :=
  if String.eqb text "{}" then Some (VDict [])
  else if String.eqb text "[]" then Some (VList [])
  else if String.eqb text "null" then Some VNull
  else if String.eqb text "true" then Some (VBool true)
  else if String.eqb text "false" then Some (VBool false)
  else None.

Section Resolver.
Context {engine : ReEngine}.

(** [json.loads] on a string: [None] when the text is no JSON document. *)
Variable json_parse : string -> option value.

(** [orm.RolesManager().get_roles()]: the role objects of the store. *)
Variable rm_get_roles : list Role.t.

(** [orm.RolesPoliciesManager().get_all_policies_from_role(role_id)] *)
Variable get_all_policies_from_role : Z -> list Policy.

(** [json.loads(v)]: [TypeError] unless [v] is a string. *)
Definition json_loads (v : value) : result value :=
  match v with
  | VStr text =>
      match json_parse text with
      | Some parsed => Ok parsed
      | None => Raise JSONDecodeError
      end
  | _ => Raise TypeError
  end.

(** [role.rule = json.loads(role.rule)] on the object at [address]. *)
Definition parse_rule (h : heap) (address : nat) : heap * result unit :=
  match nth_error h address with
  | None => (h, Raise AttributeError)
  | Some role =>
      match json_loads (Role.rule role) with
      | Ok parsed => (heap_set h address (Role.set_rule role parsed), Ok tt)
      | Raise e => (h, Raise e)
      end
  end.

(** [for role in self.roles_list: role.rule = json.loads(role.rule)] *)
Fixpoint parse_rules (h : heap) (roles : list nat) : heap * result unit :=
  match roles with
  | [] => (h, Ok tt)
  | address :: rest =>
      match parse_rule h address with
      | (h', Ok _) => parse_rules h' rest
      | (h', Raise e) => (h', Raise e)
      end
  end.

Definition __init__ (h : heap) (auth_context : string) (role : role_argument)
    : heap * result Checker :=
  match json_loads (VStr auth_context) with
  | Raise e => (h, Raise e)
  | Ok authorization_context =>
      let roles_list :=
        match role with
        | NoRole => seq (List.length h) (List.length rm_get_roles)
        | OneRole role => [role]
        | RoleList roles => roles
        end in
      let h := match role with NoRole => h ++ rm_get_roles | _ => h end in
      match parse_rules h roles_list with
      | (h', Ok _) =>
          (h', Ok {| self_authorization_context := authorization_context;
                     self_roles_list := roles_list |})
      | (h', Raise e) => (h', Raise e)
      end
  end.

Definition get_authorization_context (self : Checker) : value :=
  self_authorization_context self.

Definition get_roles (self : Checker) : list nat :=
  self_roles_list self.

Fixpoint user_roles_of (h : heap) (self : Checker) (roles : list nat)
    : result (list (Z * string)) :=
  match roles with
  | [] => Ok []
  | address :: rest =>
      match nth_error h address with
      | None => Raise AttributeError
      | Some role =>
          granted <- check_rule (self_authorization_context self) (Role.rule role) ;;
          list_roles <- user_roles_of h self rest ;;
          Ok (if (granted : bool)
              then (Role.id role, Role.name role) :: list_roles
              else list_roles)
      end
  end.

Definition get_user_roles (h : heap) (self : Checker) : result (list (Z * string)) :=
  user_roles_of h self (self_roles_list self).

(** [user_policies.append(policy for policy in rpm.get_all_policies_from_role(role[0]))]
    for each role, the generators being allocated one after the other. *)
Fixpoint collect_policies (next : nat) (user_roles : list (Z * string)) : list object :=
  match user_roles with
  | [] => []
  | role :: rest =>
      GeneratorObject next (get_all_policies_from_role (fst role))
      :: collect_policies (S next) rest
  end.

Definition run (h : heap) (self : Checker) : result (list object) :=
  user_roles <- get_user_roles h self ;;
  let user_policies := collect_policies 0 user_roles in
  Ok (py_set user_policies).

(** The set that the specification describes for [run]: the policies of
    every resolved role, without duplicates. *)
Definition policies_of_roles (user_roles : list (Z * string)) : list object :=
  py_set (map PolicyObject
              (flat_map (fun role => get_all_policies_from_role (fst role)) user_roles)).

End Resolver.

(** ** Definitions used to state the properties *)

(** Induction on JSON values, with the hypothesis for every element of a
    list and every value of a dictionary. *)
Section ValueInduction.
Variable P : value -> Prop.
Hypothesis case_null : P VNull.
Hypothesis case_bool : forall b, P (VBool b).
Hypothesis case_num : forall n, P (VNum n).
Hypothesis case_str : forall s, P (VStr s).
Hypothesis case_list : forall l, Forall P l -> P (VList l).
Hypothesis case_dict : forall d, Forall (fun entry => P (snd entry)) d -> P (VDict d).

Fixpoint value_nested_ind (v : value) : P v :=
  match v with
  | VNull => case_null
  | VBool b => case_bool b
  | VNum n => case_num n
  | VStr s => case_str s
  | VList l =>
      case_list l
        ((fix all (l : list value) : Forall P l :=
            match l with
            | [] => Forall_nil P
            | x :: rest => Forall_cons x (value_nested_ind x) (all rest)
            end) l)
  | VDict d =>
      case_dict d
        ((fix all (d : list (string * value)) : Forall (fun entry => P (snd entry)) d :=
            match d with
            | [] => Forall_nil _
            | entry :: rest =>
                Forall_cons entry (value_nested_ind (snd entry)) (all rest)
            end) d)
  end.
End ValueInduction.

(** The loop bodies of [check_rule] and [find_item], named so that the
    theorems can speak about one iteration. *)
Section LoopBodies.
Context {engine : ReEngine}.
Variable authorization_context : value.

(** The number of operands of a logical operator that evaluate to true. *)
Definition operand_count (rule_value : value) : flow bool nat :=
  match rule_value with
  | VList elements =>
      for_in (fun element validator_counter =>
                tally (check_rule authorization_context element) validator_counter)
             elements 0
  | VDict _ => tally (check_rule authorization_context rule_value) 0
  | _ => Continue 0
  end.

(** One iteration of the loop of [check_rule], for the key [rule_key]. *)
Definition rule_key_step (rule_key : string) (rule_value : value) (s : unit)
    : flow bool unit :=
  if str_in rule_key _logical_operators then
    match operand_count rule_value with
    | Continue validator_counter =>
        match check_logic_operation rule_key rule_value validator_counter with
        | Ok (Some result) => Return result
        | Ok None => Continue s
        | Raise e => Raised e
        end
    | Return r => Return r
    | Raised e => Raised e
    end
  else if str_in rule_key _functions then
    if String.eqb rule_key (function_name 0) || String.eqb rule_key (function_name 1)
    then return_if (match_item authorization_context rule_value VNull rule_key) s
    else if String.eqb rule_key (function_name 2)
            || String.eqb rule_key (function_name 3)
    then return_if (find_item authorization_context rule_value VNull rule_key) s
    else Continue s
  else Continue s.

(** One iteration of the loop of [match_item] over the keys of a rule mapping,
    against the entries [auth_items] of a context mapping. *)
Definition match_key_step (mode : string) (auth_items : list (string * value))
    (key_rule : string) (value_rule : value) (validator_counter : nat) : flow bool nat :=
  match
    match check_regex (VStr key_rule) with
    | Some regex =>
        for_in
          (fun entry validator_counter =>
             if re_match (pattern regex) (fst entry)
             then tally (match_item authorization_context value_rule (snd entry) mode)
                        validator_counter
             else Continue validator_counter)
          auth_items validator_counter
    | None => Continue validator_counter
    end
  with
  | Continue validator_counter =>
      match dict_get key_rule auth_items with
      | Some value_auth =>
          tally (match_item authorization_context value_rule value_auth mode)
                validator_counter
      | None => Continue validator_counter
      end
  | stop => stop
  end.

(** One iteration of the loop of [find_item], for the entry [value] of the
    context; [mode] is the mode after [set_mode]. *)
Definition find_value_step (role_chunk : value) (mode : string) (value : value)
    (s : unit) : flow bool unit :=
  match match_item authorization_context role_chunk value mode with
  | Raise e => Raised e
  | Ok true => Return true
  | Ok false =>
      match value with
      | VDict _ =>
          return_if (find_item_in authorization_context role_chunk value mode) s
      | VList l =>
          for_in
            (fun v (s : unit) =>
               match v with
               | VDict _ =>
                   return_if (find_item_in authorization_context role_chunk v mode) s
               | _ => Continue s
               end)
            l s
      | _ => Continue s
      end
  end.
End LoopBodies.

(** The engine facts that a theorem about the empty pattern relies on:
    [re.compile('')] succeeds and the pattern matches every string. *)
Definition empty_pattern_matches_all `{ReEngine} : Prop :=
  re_valid EmptyString = true /\ forall s, re_match EmptyString s = true.

(** One element [v] of a rule list matches one element [value] of a context
    list, literally or as a regex literal. *)
Definition element_matches `{ReEngine} (v value : value) : bool :=
  match check_regex v with
  | Some regex =>
      match value with
      | VStr s => re_match (pattern regex) s
      | _ => false
      end
  | None => py_eq value v
  end.

(** A pair on which [process_lists] cannot raise: the rule element is no
    regex literal, or the context element is a string. *)
Definition safe_pair `{ReEngine} (v value : value) : Prop :=
  check_regex v = None \/ is_str value = true.

(** The list-matching rule as the specification words it: every element of
    the rule list appears somewhere in the context list, and in the strict
    mode the two lists have the same number of elements. *)
Definition every_element_appears `{ReEngine} (role_chunk auth_context : list value) : bool :=
  forallb (fun v => existsb (element_matches v) auth_context) role_chunk.

Definition list_rule `{ReEngine} (role_chunk auth_context : list value) (mode : string)
    : bool :=
  if String.eqb mode "MATCH" then every_element_appears role_chunk auth_context
  else if String.eqb mode "MATCH$" then
    every_element_appears role_chunk auth_context
    && Nat.eqb (List.length role_chunk) (List.length auth_context)
  else false.

(** The number of pairs (context element, rule element) that match: what the
    counter of [process_lists] reaches when the loops run to their end. *)
Definition matching_pairs `{ReEngine} (role_chunk auth_context : list value) : nat :=
  list_sum (map (fun value =>
                   List.length (filter (fun v => element_matches v value) role_chunk))
                auth_context).

(** The nodes that the specification lets [find] visit: the context itself,
    the values of a reachable mapping and the mappings that are elements of a
    reachable sequence. *)
Inductive reachable (root : value) : value -> Prop :=
| reach_root : reachable root root
| reach_value d k v :
    reachable root (VDict d) -> In (k, v) d -> reachable root v
| reach_element l d :
    reachable root (VList l) -> In (VDict d) l -> reachable root (VDict d).

(** Outcomes of matching [role_chunk] on the nodes reachable from [C]: some
    node matches; every node fails; no node makes [match_item] raise. *)
Section Outcomes.
Context {engine : ReEngine}.
Variable authorization_context : value.
Variable role_chunk : value.
Variable mode : string.

Definition found (C : value) : Prop :=
  exists N, reachable C N
            /\ match_item authorization_context role_chunk N mode = Ok true.

Definition absent (C : value) : Prop :=
  forall N, reachable C N ->
            match_item authorization_context role_chunk N mode = Ok false.

Definition calm (C : value) : Prop :=
  forall N, reachable C N ->
            raises (match_item authorization_context role_chunk N mode) = false.

(** What the search says about the nodes reachable from [C]: a true result
    comes with a node that matches, a false result means that every node was
    tried and failed, and the search raises only where a match raises. *)
Definition search_is_exact (C : value) : Prop :=
  (find_item_in authorization_context role_chunk C mode = Ok true -> found C)
  /\ (find_item_in authorization_context role_chunk C mode = Ok false -> absent C)
  /\ (calm C -> raises (find_item_in authorization_context role_chunk C mode) = false).

(** The same for one step of a loop of the search, which goes on exactly when
    the nodes below the visited value all fail. *)
Definition step_is_exact (step : flow bool unit) (C : value) : Prop :=
  (step = Return true -> found C)
  /\ (step = Continue tt -> absent C)
  /\ (calm C -> forall e, step <> Raised e)
  /\ step <> Return false.

(** The search is exact on every mapping that the loop over the entries of a
    mapping can enter through the value [v]. *)
Definition search_is_exact_below (v : value) : Prop :=
  match v with
  | VDict _ => search_is_exact v
  | VList l => Forall (fun e => is_dict e = true -> search_is_exact e) l
  | _ => True
  end.
End Outcomes.

(** No key of the rule mapping, or of a mapping nested in it as a value, is
    a regex literal.  [match_item] descends through the values of a rule
    mapping only. *)
Fixpoint plain_keys `{ReEngine} (rule : value) : bool :=
  match rule with
  | VDict d =>
      (fix entries (d : list (string * value)) : bool :=
         match d with
         | [] => true
         | (k, v) :: rest =>
             match check_regex (VStr k) with
             | None => plain_keys v && entries rest
             | Some _ => false
             end
         end) d
  | _ => true
  end.

(** A loop body that a second one follows: where the first returns true so
    does the second, and where the first goes on the second goes on with the
    same state or returns true; the first never returns false. *)
Definition follows {X S : Type} (strict permissive : X -> S -> flow bool S) : Prop :=
  forall x s,
    (strict x s = Return true -> permissive x s = Return true)
    /\ (forall s', strict x s = Continue s' ->
                   permissive x s = Continue s' \/ permissive x s = Return true)
    /\ strict x s <> Return false.

(** What a result of the strict mode says about the permissive mode, for a
    rule fragment with plain keys: the permissive mode returns too, and with
    true where the strict mode does. *)
Definition permissive_follows `{ReEngine} (authorization_context role_chunk : value) : Prop :=
  plain_keys role_chunk = true ->
  forall auth_context strict,
    match_item authorization_context role_chunk auth_context "MATCH$" = Ok strict ->
    exists permissive,
      match_item authorization_context role_chunk auth_context "MATCH" = Ok permissive
      /\ (strict = true -> permissive = true).

(** The truth of a result, an exception counting as false. *)
Definition holds (r : result bool) : bool :=
  match r with
  | Ok b => b
  | Raise _ => false
  end.

(** The explicit roles of a constructor call. *)
Definition explicit_roles (role : role_argument) : option (list nat) :=
  match role with
  | NoRole => None
  | OneRole address => Some [address]
  | RoleList roles => Some roles
  end.

(** The value that the rule text of the role at [address] parses to. *)
Definition parsed_rule (json_parse : string -> option value) (h : heap) (address : nat)
    : option value :=
  match nth_error h address with
  | Some role =>
      match Role.rule role with
      | VStr text => json_parse text
      | _ => None
      end
  | None => None
  end.

Definition is_generator (o : object) : bool :=
  match o with GeneratorObject _ _ => true | PolicyObject _ => false end.

(** A rule node with two keys, each of which holds for every mapping
    context: [{"MATCH": {}, "MATCH$": {}}]. *)
Definition two_clauses : value :=
  VDict [("MATCH", VDict []); ("MATCH$", VDict [])].

(** A rule mapping whose only key is the regex literal [r'.*'X] (pattern
    [.*]), and a context with two keys. *)
Definition any_key_rule : value :=
  VDict [("r'.*'X", VList [VStr "x"])].

Definition two_lists_context : value :=
  VDict [("a", VList [VStr "x"]); ("b", VList [VStr "x"; VStr "y"])].

(** Inputs of the worked examples. *)
Definition read_agents : Policy :=
  {| actions := ["agent:read"]; resources := ["agent:id:*"]; effect := "allow" |}.

Definition match_anything : value := VDict [("MATCH", VDict [])].

Definition two_roles : heap :=
  [ {| Role.id := 1; Role.name := "administrator"; Role.rule := match_anything |};
    {| Role.id := 2; Role.name := "operator"; Role.rule := match_anything |} ].

Definition both_roles_checker : Checker :=
  {| self_authorization_context := VDict []; self_roles_list := [0; 1] |}.

Definition one_text_role : heap :=
  [ {| Role.id := 1; Role.name := "administrator"; Role.rule := VStr "{}" |} ].

(** The rule of a role holds for the authorization context. *)
Definition granted `{ReEngine} (authorization_context : value) (role : Role.t) : bool :=
  holds (check_rule authorization_context (Role.rule role)).

(** The pair [[role.id, role.name]] that [get_user_roles] appends. *)
Definition role_identity (role : Role.t) : Z * string :=
  (Role.id role, Role.name role).

(** Sorting a list of strings as [sorted] does: each string is inserted
    behind the strings that are not greater. *)
Fixpoint insert_string (x : string) (acc : list string) : list string :=
  match acc with
  | [] => [x]
  | y :: rest => if String.ltb x y then x :: y :: rest else y :: insert_string x rest
  end.

Definition sort_strings (l : list string) : list string :=
  fold_left (fun acc x => insert_string x acc) l [].

(** [a] is not greater than [b]. *)
Definition string_le (a b : string) : Prop := String.ltb b a = false.

(** * Properties *)

(** ** Strings and slices *)

Lemma length_append (s t : string) :
  String.length (s ++ t) = String.length s + String.length t.
Proof.
  induction s as [|c s IH]; simpl; [reflexivity | now rewrite IH].
Qed.

Lemma substring_append_left (s t : string) :
  String.substring 0 (String.length s) (s ++ t) = s.
Proof.
  induction s as [|c s IH]; simpl.
  - now destruct t.
  - now rewrite IH.
Qed.

(** Dropping two characters at each end of [ab ++ p ++ xy] leaves [p]. *)
Lemma slice_envelope (a b x y : ascii) (p : string) :
  slice 2 2 (String a (String b (p ++ String x (String y EmptyString)))) = p.
Proof.
  unfold slice. simpl String.length. rewrite length_append. simpl String.length.
  replace (S (S (String.length p + 2)) - 2 - 2) with (String.length p) by lia.
  simpl. apply substring_append_left.
Qed.

(** A string of at most four characters has an empty slice. *)
Lemma slice_short (s : string) : String.length s <= 4 -> slice 2 2 s = EmptyString.
Proof.
  intros Hlen. unfold slice.
  replace (String.length s - 2 - 2) with 0 by lia.
  destruct s as [|a [|b s]]; simpl; try reflexivity.
  now destruct s.
Qed.

Section RegexDetection.
Context {engine : ReEngine}.

Lemma check_regex_prefixed (s : string) :
  String.prefix "r'" s = true ->
  check_regex (VStr s) =
  if re_valid (slice 2 2 s) then Some {| pattern := slice 2 2 s |} else None.
Proof.
  intros Hp. unfold check_regex, _regex_prefix, _initial_index_for_regex.
  now rewrite Hp.
Qed.

Lemma check_regex_plain (s : string) :
  String.prefix "r'" s = false -> check_regex (VStr s) = None.
Proof.
  intros Hp. unfold check_regex, _regex_prefix. now rewrite Hp.
Qed.

Lemma check_regex_not_str (v : value) : is_str v = false -> check_regex v = None.
Proof. destruct v; simpl; congruence. Qed.

(** C7 (as amended): the detector strips the two characters [r'] in front
    and exactly two characters at the end, whatever they are.  On
    [r'^agent:id:.*'XX] the two characters dropped at the end are [XX], so
    the closing quote stays in the pattern, which is [^agent:id:.*'].  A
    string that does not start with [r'], and a value that is no string, is
    never a regex. *)
Theorem check_regex_envelope :
  (forall (p : string) (x y : ascii),
      re_valid p = true ->
      check_regex (VStr ("r'" ++ p ++ String x (String y EmptyString)))
      = Some {| pattern := p |})
  /\ (re_valid "^agent:id:.*'" = true ->
      check_regex (VStr "r'^agent:id:.*'XX") = Some {| pattern := "^agent:id:.*'" |})
  /\ (forall s, String.prefix "r'" s = false -> check_regex (VStr s) = None)
  /\ (forall v, is_str v = false -> check_regex v = None).
Proof.
  assert (Henv : forall (p : string) (x y : ascii),
             re_valid p = true ->
             check_regex (VStr ("r'" ++ p ++ String x (String y EmptyString)))
             = Some {| pattern := p |}).
  { intros p x y Hvalid.
    rewrite check_regex_prefixed
      by (cbn; now destruct (p ++ String x (String y EmptyString))%string).
    change ("r'" ++ p ++ String x (String y EmptyString))%string
      with (String "r" (String "'" (p ++ String x (String y EmptyString)))%string).
    rewrite slice_envelope, Hvalid. reflexivity. }
  repeat split.
  - exact Henv.
  - intros Hvalid. exact (Henv "^agent:id:.*'" "X"%char "X"%char Hvalid).
  - exact check_regex_plain.
  - exact check_regex_not_str.
Qed.

End RegexDetection.

(** The closed instance of [check_regex_envelope] for the reference engine. *)
Lemma check_regex_envelope_witness :
  check_regex (engine := py_re) (VStr "r'^agent:id:.*'XX")
  = Some {| pattern := "^agent:id:.*'" |}.
Proof.
  apply (proj1 (proj2 (check_regex_envelope (engine := py_re)))).
  reflexivity.
Defined.

(** C7 (as stated) fails: the pattern compiled from [r'^agent:id:.*'XX] is
    not [^agent:id:.*]; it ends with the quote. *)
Lemma check_regex_keeps_closing_quote :
  check_regex (engine := py_re) (VStr "r'^agent:id:.*'XX")
  = Some {| pattern := "^agent:id:.*'" |}
  /\ check_regex (engine := py_re) (VStr "r'^agent:id:.*'XX")
     <> Some {| pattern := "^agent:id:.*" |}.
Proof.
  split; [reflexivity | discriminate].
Qed.

(** ** Short regex literals *)

Section ShortRegexLiteral.
Context {engine : ReEngine}.
Variable authorization_context : value.

(** C10: a string that starts with [r'] and has at most four characters
    compiles to the empty pattern.  With an engine in which the empty pattern
    compiles and matches every string (as in Python), such a scalar matches
    every string value of a context, and as a rule key it matches every key
    of a context mapping: against a one-entry mapping with another key, the
    rule [{s: V}] holds exactly when [V] matches the entry's value. *)
Theorem short_regex_literal_is_wildcard (s : string) :
  String.prefix "r'" s = true ->
  String.length s <= 4 ->
  empty_pattern_matches_all ->
  check_regex (VStr s) = Some {| pattern := EmptyString |}
  /\ (forall t, Pattern_match {| pattern := EmptyString |} (VStr t) = Ok true)
  /\ (forall t mode, match_item authorization_context (VStr s) (VStr t) mode = Ok true)
  /\ (forall V k c mode,
        k <> s ->
        match_item authorization_context (VDict [(s, V)]) (VDict [(k, c)]) mode
        = match_item authorization_context V c mode).
Proof.
  intros Hp Hlen [Hvalid Hall].
  assert (Hre : check_regex (VStr s) = Some {| pattern := EmptyString |}).
  { rewrite check_regex_prefixed by assumption.
    rewrite slice_short by assumption. now rewrite Hvalid. }
  repeat split.
  - exact Hre.
  - intros t. simpl. now rewrite Hall.
  - intros t mode. cbn [match_item bound_context]. unfold match_item_leaf.
    cbn [preprocess_to_list bind fst snd]. rewrite Hre. cbn. now rewrite Hall.
  - intros V k c mode Hk. cbn [match_item bound_context for_in]. rewrite Hre.
    cbn [pattern]. rewrite Hall. cbn [dict_get].
    destruct (String.eqb_spec s k) as [Heq|_]; [congruence|].
    destruct (match_item authorization_context V c mode) as [[|]|e]; reflexivity.
Qed.

End ShortRegexLiteral.

Lemma py_re_empty_pattern : empty_pattern_matches_all (H := py_re).
Proof. split; [reflexivity | intros s; reflexivity]. Qed.

(** The instance of [short_regex_literal_is_wildcard] for the two-character
    string [r'] and the reference engine. *)
Lemma short_regex_literal_witness :
  check_regex (engine := py_re) (VStr "r'") = Some {| pattern := EmptyString |}
  /\ (forall t, Pattern_match (H := py_re) {| pattern := EmptyString |} (VStr t) = Ok true)
  /\ (forall t mode, match_item (engine := py_re) (VDict []) (VStr "r'") (VStr t) mode = Ok true)
  /\ (forall V k c mode,
        k <> "r'" ->
        match_item (engine := py_re) (VDict []) (VDict [("r'", V)]) (VDict [(k, c)]) mode
        = match_item (engine := py_re) (VDict []) V c mode).
Proof.
  apply (short_regex_literal_is_wildcard (engine := py_re) (VDict []) "r'").
  - reflexivity.
  - simpl. lia.
  - exact py_re_empty_pattern.
Defined.

(** ** Exceptions raised by the evaluator *)

Section Raising.
Context {engine : ReEngine}.

(** C5, at inputs on which the code raises.  A context list that mixes a
    string and a number cannot be sorted; a context that is no mapping has no
    [items]; an operand that is a number has no length; an operand list with
    an element that is no mapping has no [items] either.  None of these
    consults the regex engine. *)
Theorem evaluation_can_raise :
  check_rule (VDict [("groups", VList [VStr "admin"; VNum 7])])
             (VDict [("MATCH", VDict [("groups", VList [VStr "admin"])])])
  = Raise TypeError
  /\ match_item (VDict []) (VStr "admin") (VList [VStr "admin"; VNum 7]) "MATCH"
     = Raise TypeError
  /\ find_item (VDict []) (VStr "admin") (VList []) "FIND" = Raise AttributeError
  /\ check_rule (VList []) (VDict [("FIND", VStr "admin")]) = Raise AttributeError
  /\ check_rule (VDict []) (VDict [("AND", VNum 5)]) = Raise TypeError
  /\ check_rule (VDict []) (VDict [("AND", VList [VNum 1])]) = Raise AttributeError.
Proof. repeat split; reflexivity. Qed.

End Raising.

(** A regex literal in a well-formed rule raises on a context value that is a
    number. *)
Lemma regex_on_number_raises :
  check_rule (engine := py_re) (VDict [("age", VNum 7)])
             (VDict [("MATCH", VDict [("age", VStr "r'.*'X")])])
  = Raise TypeError.
Proof. reflexivity. Qed.

(** ** Logical operators on a mapping operand *)

Section MappingOperand.
Context {engine : ReEngine}.

(** C3, at an input on which the code departs from it.  The operand of the
    operator is one rule node, [{"MATCH": {}, "MATCH$": {}}], which evaluates
    to true on every mapping context (so does each of its two clauses).  The
    operator compares the number of true operands, at most one, with the
    number of keys of the operand, two: [AND] is not true and [NOT] is
    true although every operand is true. *)
Theorem operator_counts_keys_of_operand (auth_items : list (string * value)) :
  check_rule (VDict auth_items) two_clauses = Ok true
  /\ check_rule (VDict auth_items) (VDict [("MATCH", VDict [])]) = Ok true
  /\ check_rule (VDict auth_items) (VDict [("MATCH$", VDict [])]) = Ok true
  /\ check_rule (VDict auth_items) (VDict [("AND", two_clauses)]) = Ok false
  /\ check_rule (VDict auth_items) (VDict [("NOT", two_clauses)]) = Ok true
  /\ check_rule (VDict auth_items) (VDict [("AND", VList [two_clauses])]) = Ok true
  /\ check_rule (VDict auth_items) (VDict [("NOT", VList [two_clauses])]) = Ok false.
Proof. repeat split; reflexivity. Qed.

End MappingOperand.

(** ** Loops *)

Lemma for_in_ext {X R S : Type} (f g : X -> S -> flow R S) (xs : list X) (s : S) :
  (forall x s, f x s = g x s) -> for_in f xs s = for_in g xs s.
Proof.
  intros Hfg. revert s. induction xs as [|x xs IH]; intros s; [reflexivity|].
  cbn [for_in]. rewrite Hfg. destruct (g x s); auto.
Qed.

(** A loop whose body never returns does not return. *)
Lemma for_in_no_return {X R S : Type} (f : X -> S -> flow R S) (xs : list X) (s : S) (r : R) :
  (forall x s r, f x s <> Return r) -> for_in f xs s <> Return r.
Proof.
  intros Hf. revert s. induction xs as [|x xs IH]; intros s; cbn [for_in]; [discriminate|].
  destruct (f x s) as [s'|r'|e] eqn:Hx; [apply IH | now apply Hf in Hx | discriminate].
Qed.

Lemma tally_no_return {R : Type} (call : result bool) (counter : nat) (r : R) :
  tally call counter <> Return r.
Proof. destruct call; discriminate. Qed.

(** ** The rule evaluator, key by key *)

Section KeyByKey.
Context {engine : ReEngine}.
Variable authorization_context : value.

Lemma check_rule_unfold (items : list (string * value)) :
  check_rule authorization_context (VDict items)
  = finish (for_in (fun entry s =>
                      rule_key_step authorization_context (fst entry) (snd entry) s)
                   items tt)
           (fun _ => false).
Proof.
  cbn [check_rule]. f_equal. apply for_in_ext. intros [k v] s. reflexivity.
Qed.

Lemma check_rule_cons (k : string) (v : value) (rest : list (string * value)) :
  check_rule authorization_context (VDict ((k, v) :: rest))
  = match rule_key_step authorization_context k v tt with
    | Continue _ => check_rule authorization_context (VDict rest)
    | Return r => Ok r
    | Raised e => Raise e
    end.
Proof.
  rewrite !check_rule_unfold. cbn [for_in fst snd].
  destruct (rule_key_step authorization_context k v tt) as [[]| |]; reflexivity.
Qed.

Lemma check_rule_single (k : string) (v : value) :
  check_rule authorization_context (VDict [(k, v)])
  = finish (rule_key_step authorization_context k v tt) (fun _ => false).
Proof.
  rewrite check_rule_cons.
  destruct (rule_key_step authorization_context k v tt); reflexivity.
Qed.

Lemma operand_count_no_return (rule_value : value) (r : bool) :
  operand_count authorization_context rule_value <> Return r.
Proof.
  destruct rule_value; cbn [operand_count]; try discriminate.
  - apply for_in_no_return. intros x s r'. apply tally_no_return.
  - apply tally_no_return.
Qed.

(** Only [NOT] stops the loop with [False]. *)
Lemma definite_false_is_not (k : string) (v : value) :
  rule_key_step authorization_context k v tt = Return false -> k = "NOT".
Proof.
  unfold rule_key_step.
  destruct (str_in k _logical_operators) eqn:Hop.
  - destruct (operand_count authorization_context v) as [n|r|e] eqn:Hcount;
      [| now apply operand_count_no_return in Hcount | discriminate].
    unfold check_logic_operation, logical_operator. cbn [nth _logical_operators].
    destruct (String.eqb_spec k "AND") as [_|_].
    { destruct (py_len v); cbn [bind]; [destruct (Nat.eqb n a)|]; discriminate. }
    destruct (String.eqb_spec k "OR") as [_|_].
    { destruct (Nat.ltb 0 n); discriminate. }
    destruct (String.eqb_spec k "NOT") as [Hk|_]; [intros _; exact Hk | discriminate].
  - destruct (str_in k _functions).
    + destruct (_ || _).
      * unfold return_if. destruct (match_item _ _ _ _) as [[|]|]; discriminate.
      * destruct (_ || _); [|discriminate].
        unfold return_if. destruct (find_item _ _ _ _) as [[|]|]; discriminate.
    + discriminate.
Qed.

(** [NOT] never lets the loop go on. *)
Lemma not_is_definite (v : value) (s : unit) :
  rule_key_step authorization_context "NOT" v tt <> Continue s.
Proof.
  unfold rule_key_step. cbn [str_in existsb _logical_operators String.eqb Ascii.eqb Bool.eqb orb].
  destruct (operand_count authorization_context v) as [n|r|e]; try discriminate.
  unfold check_logic_operation, logical_operator. cbn.
  destruct (py_len v); cbn [bind]; discriminate.
Qed.

(** C6 (as amended): the keys of a rule are evaluated in order.  A key that
    yields true ends the evaluation with true; a key other than [NOT] that
    evaluates to false is skipped and the remaining keys decide; a [NOT]
    key always decides, so a [NOT] that evaluates to false ends the
    evaluation with false whatever the later keys are; a key that raises
    ends it with the exception; with no key left the result is false. *)
Theorem check_rule_key_by_key (k : string) (v : value) (rest : list (string * value)) :
  (check_rule authorization_context (VDict [(k, v)]) = Ok true ->
   check_rule authorization_context (VDict ((k, v) :: rest)) = Ok true)
  /\ (k <> "NOT" ->
      check_rule authorization_context (VDict [(k, v)]) = Ok false ->
      check_rule authorization_context (VDict ((k, v) :: rest))
      = check_rule authorization_context (VDict rest))
  /\ (k = "NOT" ->
      check_rule authorization_context (VDict ((k, v) :: rest))
      = check_rule authorization_context (VDict [(k, v)]))
  /\ (forall e, check_rule authorization_context (VDict [(k, v)]) = Raise e ->
      check_rule authorization_context (VDict ((k, v) :: rest)) = Raise e)
  /\ check_rule authorization_context (VDict []) = Ok false.
Proof.
  rewrite check_rule_single, check_rule_cons.
  destruct (rule_key_step authorization_context k v tt) as [[]|r|e] eqn:Hstep;
    cbn [finish]; repeat split; try congruence.
  - intros ->. now apply not_is_definite in Hstep.
  - intros Hk Hr. injection Hr as ->. now apply definite_false_is_not in Hstep.
Qed.
End KeyByKey.

(** The instance of [check_rule_key_by_key] for the rule
    [{"NOT": [], "MATCH": {}}] on the empty context. *)
Lemma check_rule_key_by_key_witness :
  check_rule (engine := py_re) (VDict []) (VDict [("NOT", VList []); ("MATCH", VDict [])])
  = check_rule (engine := py_re) (VDict []) (VDict [("NOT", VList [])]).
Proof.
  exact (proj1 (proj2 (proj2
           (check_rule_key_by_key (engine := py_re) (VDict []) "NOT" (VList [])
              [("MATCH", VDict [])])))
           eq_refl).
Defined.

(** C6 (as stated) fails: in [{"NOT": [], "MATCH": {}}] the first key
    evaluates to false and the second one, which yields true on its own, is
    never tried. *)
Lemma false_not_hides_later_key :
  check_rule (engine := py_re) (VDict []) (VDict [("NOT", VList [])]) = Ok false
  /\ check_rule (engine := py_re) (VDict []) (VDict [("MATCH", VDict [])]) = Ok true
  /\ check_rule (engine := py_re) (VDict []) (VDict [("NOT", VList []); ("MATCH", VDict [])])
     = Ok false.
Proof. repeat split; reflexivity. Qed.

(** ** The policies returned by [run] *)

Section RunResult.
Context {engine : ReEngine}.
Variable get_all_policies_from_role : Z -> list Policy.

Lemma collect_policies_length (next : nat) (user_roles : list (Z * string)) :
  List.length (collect_policies get_all_policies_from_role next user_roles)
  = List.length user_roles.
Proof.
  revert next. induction user_roles as [|role rest IH]; intros next; simpl;
    [reflexivity | now rewrite IH].
Qed.

Lemma collect_policies_generators (next : nat) (user_roles : list (Z * string)) :
  forallb is_generator (collect_policies get_all_policies_from_role next user_roles) = true.
Proof.
  revert next. induction user_roles as [|role rest IH]; intros next; simpl; auto.
Qed.

(** Generators allocated later are different objects. *)
Lemma collect_policies_fresh (address next : nat) (user_roles : list (Z * string))
      (pending : list Policy) :
  address < next ->
  filter (fun y => negb (object_eqb (GeneratorObject address pending) y))
         (collect_policies get_all_policies_from_role next user_roles)
  = collect_policies get_all_policies_from_role next user_roles.
Proof.
  revert next. induction user_roles as [|role rest IH]; intros next Hlt; simpl;
    [reflexivity|].
  destruct (Nat.eqb_spec address next) as [Heq|_]; [lia|].
  simpl. rewrite IH by lia. reflexivity.
Qed.

(** [set] removes nothing from the list of generators. *)
Lemma py_set_collect_policies (next : nat) (user_roles : list (Z * string)) :
  py_set (collect_policies get_all_policies_from_role next user_roles)
  = collect_policies get_all_policies_from_role next user_roles.
Proof.
  revert next. induction user_roles as [|role rest IH]; intros next;
    cbn [collect_policies py_set]; [reflexivity|].
  rewrite IH, collect_policies_fresh by lia. reflexivity.
Qed.

(** C8, as the code has it: whenever [run] returns, the set it returns
    holds one generator object for each resolved role and no policy.  The
    generators are distinct objects, so [set] merges nothing, whatever
    policies the roles share. *)
Theorem run_returns_one_generator_per_role (h : heap) (self : Checker)
        (user_policies : list object) :
  run get_all_policies_from_role h self = Ok user_policies ->
  exists user_roles,
    get_user_roles h self = Ok user_roles
    /\ List.length user_policies = List.length user_roles
    /\ forallb is_generator user_policies = true.
Proof.
  unfold run. destruct (get_user_roles h self) as [user_roles|e]; cbn [bind];
    [|discriminate].
  intros Hrun. injection Hrun as <-. exists user_roles.
  rewrite py_set_collect_policies, collect_policies_length, collect_policies_generators.
  auto.
Qed.
End RunResult.

(** Two roles that both hold and share their only policy: [run] returns two
    generator objects, where the specification describes the set with that one
    policy. *)
Lemma run_on_two_roles :
  run (engine := py_re) (fun _ => [read_agents]) two_roles both_roles_checker
  = Ok [GeneratorObject 0 [read_agents]; GeneratorObject 1 [read_agents]]
  /\ get_user_roles (engine := py_re) two_roles both_roles_checker
     = Ok [(1%Z, "administrator"); (2%Z, "operator")]
  /\ policies_of_roles (fun _ => [read_agents]) [(1%Z, "administrator"); (2%Z, "operator")]
     = [PolicyObject read_agents].
Proof. repeat split; reflexivity. Qed.

(** The instance of [run_returns_one_generator_per_role] for these two roles. *)
Lemma run_returns_one_generator_per_role_witness :
  exists user_roles,
    get_user_roles (engine := py_re) two_roles both_roles_checker = Ok user_roles
    /\ List.length [GeneratorObject 0 [read_agents]; GeneratorObject 1 [read_agents]]
       = List.length user_roles
    /\ forallb is_generator [GeneratorObject 0 [read_agents]; GeneratorObject 1 [read_agents]]
       = true.
Proof.
  apply (run_returns_one_generator_per_role (engine := py_re) (fun _ => [read_agents])
           two_roles both_roles_checker).
  reflexivity.
Defined.

(** ** The constructor and the caller's role objects *)

Lemma nth_error_heap_set_same (h : heap) (address : nat) (old role : Role.t) :
  nth_error h address = Some old ->
  nth_error (heap_set h address role) address = Some role.
Proof.
  revert address. induction h as [|r h IH]; intros [|address]; simpl; try discriminate; auto.
Qed.

Lemma nth_error_heap_set_other (h : heap) (address other : nat) (role : Role.t) :
  address <> other ->
  nth_error (heap_set h address role) other = nth_error h other.
Proof.
  revert address other. induction h as [|r h IH]; intros [|address] [|other] Hne; simpl;
    try reflexivity; try congruence.
  apply IH. congruence.
Qed.

Section Constructor.
Variable json_parse : string -> option value.
Variable rm_get_roles : list Role.t.

(** Parsing the rule of a role that is not in [roles] does not change what
    the rules of [roles] parse to. *)
Lemma parsed_rule_heap_set (h : heap) (address other : nat) (role : Role.t) :
  address <> other ->
  parsed_rule json_parse (heap_set h address role) other = parsed_rule json_parse h other.
Proof.
  intros Hne. unfold parsed_rule. now rewrite nth_error_heap_set_other.
Qed.

Lemma parse_rule_ok (h : heap) (address : nat) (v : value) :
  parsed_rule json_parse h address = Some v ->
  exists role,
    nth_error h address = Some role
    /\ parse_rule json_parse h address
       = (heap_set h address (Role.set_rule role v), Ok tt).
Proof.
  unfold parsed_rule, parse_rule, json_loads.
  destruct (nth_error h address) as [role|]; [|discriminate].
  destruct (Role.rule role); try discriminate.
  intros ->. now exists role.
Qed.

Lemma parse_rules_ok (roles : list nat) :
  forall h : heap,
    NoDup roles ->
    (forall address, In address roles ->
       exists v, parsed_rule json_parse h address = Some v /\ is_str v = false) ->
    exists h',
      parse_rules json_parse h roles = (h', Ok tt)
      /\ (forall address, In address roles ->
            exists role v,
              nth_error h address = Some role
              /\ parsed_rule json_parse h address = Some v
              /\ is_str v = false
              /\ nth_error h' address = Some (Role.set_rule role v))
      /\ (forall other, ~ In other roles -> nth_error h' other = nth_error h other).
Proof.
  induction roles as [|address rest IH]; intros h Hnodup Hparse.
  - exists h. repeat split; auto. intros address [].
  - inversion Hnodup as [|? ? Hnotin Hnodup']; subst.
    destruct (Hparse address (or_introl eq_refl)) as (v & Hv & Hstr).
    destruct (parse_rule_ok h address v Hv) as (role & Hrole & Hstep).
    destruct (IH (heap_set h address (Role.set_rule role v)) Hnodup') as (h' & Hrun & Hin & Hout).
    { intros other Hother. rewrite parsed_rule_heap_set by (intros ->; contradiction).
      apply Hparse. now right. }
    exists h'. cbn [parse_rules]. rewrite Hstep. split; [exact Hrun|]. split.
    + intros a [<-|Ha].
      * exists role, v. repeat split; auto.
        rewrite (Hout address Hnotin). now apply nth_error_heap_set_same with (old := role).
      * destruct (Hin a Ha) as (role' & v' & H1 & H2 & H3 & H4).
        assert (Hne : address <> a) by (intros ->; contradiction).
        rewrite nth_error_heap_set_other in H1 by exact Hne.
        rewrite parsed_rule_heap_set in H2 by exact Hne.
        now exists role', v'.
    + intros other Hother. rewrite Hout by (intros Hc; apply Hother; now right).
      apply nth_error_heap_set_other. intros ->. apply Hother. now left.
Qed.

(** A rule that is no string makes the parsing loop raise at once. *)
Lemma parse_rules_again (h : heap) (address : nat) (rest : list nat) (role : Role.t) :
  nth_error h address = Some role ->
  is_str (Role.rule role) = false ->
  parse_rules json_parse h (address :: rest) = (h, Raise TypeError).
Proof.
  intros Hrole Hstr. cbn [parse_rules]. unfold parse_rule. rewrite Hrole.
  destruct (Role.rule role); try discriminate; reflexivity.
Qed.

(** C9: constructing the checker with an explicit role or a list of roles
    (distinct objects whose rule texts parse to values that are no strings,
    as rule nodes are) succeeds and overwrites, in the caller's heap, the
    rule of each of these roles with its parsed value; no other object
    changes.  The rule is then no string: the text is lost, and every
    second construction with the same argument raises and leaves the heap
    as it is, with [TypeError] when the context text is valid. *)
Theorem constructor_overwrites_rules (h : heap) (auth_context : string)
        (role : role_argument) (roles : list nat) (context : value) :
  explicit_roles role = Some roles ->
  roles <> [] ->
  NoDup roles ->
  (forall address, In address roles ->
     exists v, parsed_rule json_parse h address = Some v /\ is_str v = false) ->
  json_parse auth_context = Some context ->
  exists h',
    __init__ json_parse rm_get_roles h auth_context role
    = (h', Ok {| self_authorization_context := context; self_roles_list := roles |})
    /\ (forall address, In address roles ->
          exists old v,
            nth_error h address = Some old
            /\ parsed_rule json_parse h address = Some v
            /\ nth_error h' address = Some (Role.set_rule old v)
            /\ is_str (Role.rule (Role.set_rule old v)) = false)
    /\ (forall other, ~ In other roles -> nth_error h' other = nth_error h other)
    /\ (forall auth_context',
          exists e, __init__ json_parse rm_get_roles h' auth_context' role = (h', Raise e))
    /\ (forall auth_context' context',
          json_parse auth_context' = Some context' ->
          __init__ json_parse rm_get_roles h' auth_context' role = (h', Raise TypeError)).
Proof.
  intros Hrole Hnonempty Hnodup Hparse Hcontext.
  destruct (parse_rules_ok roles h Hnodup Hparse) as (h' & Hrun & Hin & Hout).
  assert (Hagain : parse_rules json_parse h' roles = (h', Raise TypeError)).
  { destruct roles as [|address rest]; [congruence|].
    destruct (Hin address (or_introl eq_refl)) as (old & v & _ & _ & Hstr & Hnew).
    apply parse_rules_again with (role := Role.set_rule old v); assumption. }
  exists h'. split; [|split; [|split; [exact Hout|split]]].
  - unfold __init__, json_loads. rewrite Hcontext.
    destruct role as [|address|l]; cbn [explicit_roles] in Hrole; try discriminate;
      injection Hrole as <-; now rewrite Hrun.
  - intros address Ha. destruct (Hin address Ha) as (old & v & H1 & H2 & H3 & H4).
    now exists old, v.
  - intros auth_context'. unfold __init__, json_loads.
    destruct (json_parse auth_context') as [context'|]; [|now exists JSONDecodeError].
    exists TypeError.
    destruct role as [|address|l]; cbn [explicit_roles] in Hrole; try discriminate;
      injection Hrole as <-; now rewrite Hagain.
  - intros auth_context' context' Hcontext'. unfold __init__, json_loads.
    rewrite Hcontext'.
    destruct role as [|address|l]; cbn [explicit_roles] in Hrole; try discriminate;
      injection Hrole as <-; now rewrite Hagain.
Qed.
End Constructor.

(** The instance of [constructor_overwrites_rules] for one role whose rule
    text is [{}]. *)
Lemma constructor_overwrites_rules_witness :
  exists h',
    __init__ json_literals [] one_text_role "{}" (OneRole 0)
    = (h', Ok {| self_authorization_context := VDict []; self_roles_list := [0] |})
    /\ (forall address, In address [0] ->
          exists old v,
            nth_error one_text_role address = Some old
            /\ parsed_rule json_literals one_text_role address = Some v
            /\ nth_error h' address = Some (Role.set_rule old v)
            /\ is_str (Role.rule (Role.set_rule old v)) = false)
    /\ (forall other, ~ In other [0] -> nth_error h' other = nth_error one_text_role other)
    /\ (forall auth_context',
          exists e, __init__ json_literals [] h' auth_context' (OneRole 0) = (h', Raise e))
    /\ (forall auth_context' context',
          json_literals auth_context' = Some context' ->
          __init__ json_literals [] h' auth_context' (OneRole 0) = (h', Raise TypeError)).
Proof.
  apply (constructor_overwrites_rules json_literals [] one_text_role "{}" (OneRole 0) [0]
           (VDict [])).
  - reflexivity.
  - discriminate.
  - constructor; [simpl; tauto | constructor].
  - intros address [<-|[]]. exists (VDict []). split; reflexivity.
  - reflexivity.
Defined.

(** The same construction, evaluated: the first call parses the rule in
    place, the second call on the same object raises. *)
Lemma constructor_on_one_role :
  __init__ json_literals [] one_text_role "{}" (OneRole 0)
  = ([ {| Role.id := 1; Role.name := "administrator"; Role.rule := VDict [] |} ],
     Ok {| self_authorization_context := VDict []; self_roles_list := [0] |})
  /\ __init__ json_literals []
       [ {| Role.id := 1; Role.name := "administrator"; Role.rule := VDict [] |} ]
       "{}" (OneRole 0)
     = ([ {| Role.id := 1; Role.name := "administrator"; Role.rule := VDict [] |} ],
        Raise TypeError).
Proof. split; reflexivity. Qed.

(** ** Reachable nodes *)

Lemma reachable_trans (a b c : value) : reachable a b -> reachable b c -> reachable a c.
Proof.
  intros Hab Hbc. induction Hbc as [|d k v _ IH Hin|l d _ IH Hin].
  - exact Hab.
  - exact (reach_value a d k v IH Hin).
  - exact (reach_element a l d IH Hin).
Qed.

(** A node other than the root is reached through a value of the root
    mapping, or through a mapping that is an element of the root sequence. *)
Lemma reachable_inv (root N : value) :
  reachable root N ->
  N = root
  \/ (exists d k v, root = VDict d /\ In (k, v) d /\ reachable v N)
  \/ (exists l d, root = VList l /\ In (VDict d) l /\ reachable (VDict d) N).
Proof.
  intros H. induction H as [|d k v Hd IH Hin|l d Hl IH Hin].
  - now left.
  - right. destruct IH as [Heq|[(d0 & k0 & v0 & Heq & Hin0 & Hreach)|(l0 & d0 & Heq & Hin0 & Hreach)]];
      subst root.
    + left. exists d, k, v. repeat split; auto. apply reach_root.
    + left. exists d0, k0, v0. repeat split; auto. exact (reach_value v0 d k v Hreach Hin).
    + right. exists l0, d0. repeat split; auto.
      exact (reach_value (VDict d0) d k v Hreach Hin).
  - right. destruct IH as [Heq|[(d0 & k0 & v0 & Heq & Hin0 & Hreach)|(l0 & d0 & Heq & Hin0 & Hreach)]];
      subst root.
    + right. exists l, d. repeat split; auto. apply reach_root.
    + left. exists d0, k0, v0. repeat split; auto. exact (reach_element v0 l d Hreach Hin).
    + right. exists l0, d0. repeat split; auto.
      exact (reach_element (VDict d0) l d Hreach Hin).
Qed.

Lemma reachable_scalar (root N : value) :
  is_scalar root = true -> reachable root N -> N = root.
Proof.
  intros Hs H. apply reachable_inv in H.
  destruct H as [->|[(d & k & v & -> & _)|(l & d & -> & _)]]; [reflexivity| |]; discriminate.
Qed.

Lemma set_mode_idempotent (mode : string) : set_mode (set_mode mode) = set_mode mode.
Proof.
  unfold set_mode, function_name. cbn [nth _functions].
  destruct (String.eqb_spec mode "FIND") as [->|H1]; [reflexivity|].
  destruct (String.eqb_spec mode "FIND$") as [->|H2]; [reflexivity|].
  destruct (String.eqb_spec mode "FIND"); [contradiction|].
  destruct (String.eqb_spec mode "FIND$"); [contradiction|reflexivity].
Qed.
(** ** The recursive search *)

Section Search.
Context {engine : ReEngine}.
Variable authorization_context : value.
Variable role_chunk : value.

Lemma find_item_in_unfold (auth_context : value) (mode : string) :
  find_item_in authorization_context role_chunk auth_context mode
  = (validator_counter <-
       match_item authorization_context role_chunk auth_context (set_mode mode) ;;
     if (validator_counter : bool) then Ok true
     else match auth_context with
          | VDict items =>
              finish
                (for_in (fun entry s =>
                           find_value_step authorization_context role_chunk
                             (set_mode mode) (snd entry) s)
                        items tt)
                (fun _ => false)
          | _ => Raise AttributeError
          end).
Proof.
  destruct auth_context; cbn [find_item_in]; try reflexivity.
  destruct (match_item authorization_context role_chunk (VDict d) (set_mode mode))
    as [[|]|]; cbn [bind]; try reflexivity.
  f_equal. apply for_in_ext. intros [k v] s. reflexivity.
Qed.

Lemma find_item_in_set_mode (auth_context : value) (mode : string) :
  find_item_in authorization_context role_chunk auth_context (set_mode mode)
  = find_item_in authorization_context role_chunk auth_context mode.
Proof. now rewrite !find_item_in_unfold, set_mode_idempotent. Qed.

(** From here on [mode] is a mode that [set_mode] leaves alone. *)
Variable mode : string.
Hypothesis mode_is_set : set_mode mode = mode.

Lemma found_below (a b : value) :
  reachable a b ->
  found authorization_context role_chunk mode b ->
  found authorization_context role_chunk mode a.
Proof.
  intros Hab (N & HN & Hmatch). exists N. split; [|exact Hmatch].
  now apply reachable_trans with b.
Qed.

Lemma calm_below (a b : value) :
  reachable a b ->
  calm authorization_context role_chunk mode a ->
  calm authorization_context role_chunk mode b.
Proof.
  intros Hab Hcalm N HN. apply Hcalm. now apply reachable_trans with b.
Qed.

Lemma return_if_is_exact (C : value) :
  search_is_exact authorization_context role_chunk mode C ->
  step_is_exact authorization_context role_chunk mode (return_if (find_item_in authorization_context role_chunk C mode) tt) C.
Proof.
  intros (Htrue & Hfalse & Hcalm). unfold step_is_exact, return_if.
  destruct (find_item_in authorization_context role_chunk C mode) as [[|]|e];
    repeat split; try discriminate; auto.
  intros Hc e' _. specialize (Hcalm Hc). discriminate.
Qed.

(** The loop over the elements of a sequence that is a value of a mapping. *)
Lemma element_loop_is_exact (l : list value) :
  Forall (fun e => is_dict e = true -> search_is_exact authorization_context role_chunk mode e) l ->
  let loop :=
    for_in (fun v (s : unit) =>
              match v with
              | VDict _ =>
                  return_if (find_item_in authorization_context role_chunk v mode) s
              | _ => Continue s
              end) l tt in
  (loop = Return true ->
   exists e, In e l /\ is_dict e = true /\ found authorization_context role_chunk mode e)
  /\ (loop = Continue tt ->
      forall e, In e l -> is_dict e = true -> absent authorization_context role_chunk mode e)
  /\ ((forall e, In e l -> is_dict e = true -> calm authorization_context role_chunk mode e) ->
      forall e, loop <> Raised e)
  /\ loop <> Return false.
Proof.
  induction 1 as [|x l Hx _ IH]; cbn zeta; cbn [for_in].
  - repeat split; try discriminate. intros _ e [].
  - cbn zeta in IH. destruct IH as (IH1 & IH2 & IH3 & IH4).
    assert (Hstep : is_dict x = true ->
                    step_is_exact authorization_context role_chunk mode
                      (return_if (find_item_in authorization_context role_chunk x mode) tt) x)
      by (intros Hd; apply return_if_is_exact; auto).
    destruct x as [| | | | |d];
      try (repeat split;
           [ intros H; destruct (IH1 H) as (e & He & Hrest); exists e; split; [now right|exact Hrest]
           | intros H e [<-|He]; [discriminate | now apply IH2]
           | intros Hc; apply IH3; intros e He; apply Hc; now right
           | exact IH4 ]).
    destruct (Hstep eq_refl) as (S1 & S2 & S3 & S4).
    destruct (return_if (find_item_in authorization_context role_chunk (VDict d) mode) tt)
      as [[]|[|]|e0] eqn:Hrun.
    + repeat split.
      * intros H. destruct (IH1 H) as (e & He & Hrest). exists e. split; [now right|exact Hrest].
      * intros H e [<-|He] Hd; [now apply S2 | now apply IH2].
      * intros Hc. apply IH3. intros e He. apply Hc. now right.
      * exact IH4.
    + repeat split; try discriminate.
      intros _. exists (VDict d). repeat split; [now left | now apply S1].
    + now contradiction S4.
    + repeat split; try discriminate.
      intros Hc e Heq. apply (S3 (Hc (VDict d) (or_introl eq_refl) eq_refl) e0). reflexivity.
Qed.

Lemma value_step_is_exact (v : value) :
  search_is_exact_below authorization_context role_chunk mode v ->
  step_is_exact authorization_context role_chunk mode
    (find_value_step authorization_context role_chunk mode v tt) v.
Proof.
  intros Hbelow. unfold find_value_step.
  destruct (match_item authorization_context role_chunk v mode) as [[|]|e0] eqn:Hmatch.
  - repeat split; try discriminate. intros _. exists v. split; [apply reach_root|exact Hmatch].
  - destruct v as [| | | |l|d]; cbn [search_is_exact_below] in Hbelow;
      try (repeat split; try discriminate;
           intros _ N HN; apply reachable_scalar in HN; [now subst N | reflexivity]).
    + destruct (element_loop_is_exact l Hbelow) as (L1 & L2 & L3 & L4). cbn zeta in *.
      repeat split.
      * intros H. destruct (L1 H) as (e & He & Hd & Hfound).
        apply found_below with e; [|exact Hfound].
        destruct e; try discriminate. apply reach_element with l; [apply reach_root|exact He].
      * intros H N HN. apply reachable_inv in HN.
        destruct HN as [->|[(d0 & k0 & v0 & Heq & _)|(l0 & d0 & Heq & Hin & Hreach)]];
          [exact Hmatch | discriminate |].
        injection Heq as <-. exact (L2 H (VDict d0) Hin eq_refl N Hreach).
      * intros Hc. apply L3. intros e He Hd. apply calm_below with (VList l); [|exact Hc].
        destruct e; try discriminate. apply reach_element with l; [apply reach_root|exact He].
      * exact L4.
    + apply return_if_is_exact. exact Hbelow.
  - repeat split; try discriminate.
    intros Hc e _. specialize (Hc v (reach_root v)). rewrite Hmatch in Hc. discriminate.
Qed.

(** The loop over the entries of a mapping. *)
Lemma entry_loop_is_exact (items : list (string * value)) :
  Forall (fun entry => search_is_exact_below authorization_context role_chunk mode (snd entry))
         items ->
  let loop :=
    for_in (fun entry s =>
              find_value_step authorization_context role_chunk mode (snd entry) s)
           items tt in
  (loop = Return true ->
   exists entry, In entry items
                 /\ found authorization_context role_chunk mode (snd entry))
  /\ (loop = Continue tt ->
      forall entry, In entry items ->
                    absent authorization_context role_chunk mode (snd entry))
  /\ ((forall entry, In entry items ->
                     calm authorization_context role_chunk mode (snd entry)) ->
      forall e, loop <> Raised e)
  /\ loop <> Return false.
Proof.
  induction 1 as [|entry items Hentry _ IH]; cbn zeta; cbn [for_in].
  - repeat split; try discriminate. intros _ entry [].
  - cbn zeta in IH. destruct IH as (IH1 & IH2 & IH3 & IH4).
    destruct (value_step_is_exact (snd entry) Hentry) as (S1 & S2 & S3 & S4).
    destruct (find_value_step authorization_context role_chunk mode (snd entry) tt)
      as [[]|[|]|e0] eqn:Hrun.
    + repeat split.
      * intros H. destruct (IH1 H) as (x & Hx & Hrest). exists x. split; [now right|exact Hrest].
      * intros H x [<-|Hx]; [now apply S2 | now apply IH2].
      * intros Hc. apply IH3. intros x Hx. apply Hc. now right.
      * exact IH4.
    + repeat split; try discriminate.
      intros _. exists entry. split; [now left | now apply S1].
    + now contradiction S4.
    + repeat split; try discriminate.
      intros Hc e Heq. apply (S3 (Hc entry (or_introl eq_refl)) e0). reflexivity.
Qed.

Lemma search_is_exact_everywhere (v : value) :
  search_is_exact_below authorization_context role_chunk mode v.
Proof.
  induction v as [| | | |l IH|d IH] using value_nested_ind; cbn [search_is_exact_below]; auto.
  - eapply Forall_impl; [|exact IH]. intros e He Hd.
    destruct e; try discriminate. exact He.
  - destruct (entry_loop_is_exact d IH) as (L1 & L2 & L3 & L4). cbn zeta in *.
    unfold search_is_exact. rewrite find_item_in_unfold, mode_is_set.
    destruct (match_item authorization_context role_chunk (VDict d) mode)
      as [[|]|e0] eqn:Hmatch; cbn [bind].
    + repeat split; try discriminate.
      intros _. exists (VDict d). split; [apply reach_root|exact Hmatch].
    + destruct (for_in _ d tt) as [[]|[|]|e1] eqn:Hloop; cbn [finish].
      * repeat split; try discriminate.
        intros _ N HN. apply reachable_inv in HN.
        destruct HN as [->|[(d0 & k0 & v0 & Heq & Hin & Hreach)|(l0 & d0 & Heq & _)]];
          [exact Hmatch | | discriminate].
        injection Heq as <-. exact (L2 eq_refl (k0, v0) Hin N Hreach).
      * repeat split; try discriminate.
        intros _. destruct (L1 eq_refl) as ([k v] & Hin & Hfound).
        apply found_below with v; [|exact Hfound].
        apply reach_value with d k; [apply reach_root|exact Hin].
      * now contradiction L4.
      * repeat split; try discriminate.
        intros Hc. exfalso. apply (L3 (fun entry Hin =>
                           calm_below (VDict d) (snd entry)
                             (reach_value (VDict d) d (fst entry) (snd entry)
                                (reach_root (VDict d))
                                (eq_ind _ (fun x => In x d) Hin _ (surjective_pairing entry)))
                             Hc) e1).
        reflexivity.
    + repeat split; try discriminate.
      intros Hc. specialize (Hc (VDict d) (reach_root _)). rewrite Hmatch in Hc. discriminate.
Qed.
End Search.

Section SearchTheorem.
Context {engine : ReEngine}.
Variable authorization_context : value.

(** On a context that is no mapping the search ends where it starts. *)
Lemma search_outside_mapping (role_chunk C : value) (mode : string) :
  is_dict C = false ->
  find_item_in authorization_context role_chunk C mode
  = (matched <- match_item authorization_context role_chunk C (set_mode mode) ;;
     if (matched : bool) then Ok true else Raise AttributeError).
Proof.
  intros Hd. rewrite find_item_in_unfold. destruct C; try discriminate; reflexivity.
Qed.

(** The nodes of a mapping whose values are scalars are the mapping and its
    values. *)
Lemma reachable_flat (d : list (string * value)) (N : value) :
  (forall k v, In (k, v) d -> is_scalar v = true) ->
  reachable (VDict d) N <-> N = VDict d \/ exists k, In (k, N) d.
Proof.
  intros Hflat. split.
  - intros H. apply reachable_inv in H.
    destruct H as [->|[(d0 & k & v & Heq & Hin & Hreach)|(l & d0 & Heq & _)]];
      [now left | | discriminate].
    injection Heq as <-. right. exists k.
    apply reachable_scalar in Hreach; [now subst N | now apply Hflat with k].
  - intros [->|(k & Hin)]; [apply reach_root|].
    apply reach_value with d k; [apply reach_root | exact Hin].
Qed.

(** C4 (as amended).  The nodes reachable from the context are the context,
    every value of a reachable mapping, and every mapping that is an element of
    a reachable sequence.  If [find_item] returns true, [match_item] is true on
    some reachable node; if it returns false, [match_item] is false on every
    reachable node; and when the context is a mapping and [match_item] raises
    on no reachable node, [find_item] returns, with true exactly when some
    reachable node matches.  The values of the context are among these nodes:
    on a mapping whose values are scalars some node matches exactly when the
    mapping or one of its values does. *)
Theorem find_item_searches_reachable_nodes (role_chunk auth_context : value)
        (mode : string) :
  (find_item authorization_context role_chunk auth_context mode = Ok true ->
   found authorization_context role_chunk (set_mode mode)
         (bound_context authorization_context auth_context))
  /\ (find_item authorization_context role_chunk auth_context mode = Ok false ->
      absent authorization_context role_chunk (set_mode mode)
             (bound_context authorization_context auth_context))
  /\ (is_dict (bound_context authorization_context auth_context) = true ->
      calm authorization_context role_chunk (set_mode mode)
           (bound_context authorization_context auth_context) ->
      exists b,
        find_item authorization_context role_chunk auth_context mode = Ok b
        /\ (b = true <->
            found authorization_context role_chunk (set_mode mode)
                  (bound_context authorization_context auth_context)))
  /\ (forall d,
        (forall k v, In (k, v) d -> is_scalar v = true) ->
        found authorization_context role_chunk (set_mode mode) (VDict d) <->
        match_item authorization_context role_chunk (VDict d) (set_mode mode) = Ok true
        \/ exists k v,
             In (k, v) d
             /\ match_item authorization_context role_chunk v (set_mode mode) = Ok true).
Proof.
  unfold find_item. rewrite <- find_item_in_set_mode.
  set (C := bound_context authorization_context auth_context).
  set (m := set_mode mode).
  assert (Hm : set_mode m = m) by apply set_mode_idempotent.
  assert (Hexact : (find_item_in authorization_context role_chunk C m = Ok true ->
                    found authorization_context role_chunk m C)
                   /\ (find_item_in authorization_context role_chunk C m = Ok false ->
                       absent authorization_context role_chunk m C)).
  { destruct (is_dict C) eqn:Hd.
    - pose proof (search_is_exact_everywhere authorization_context role_chunk m Hm C) as H.
      destruct C; try discriminate. destruct H as (H1 & H2 & _). now split.
    - rewrite search_outside_mapping, Hm by exact Hd.
      destruct (match_item authorization_context role_chunk C m) as [[|]|e] eqn:Hmatch;
        cbn [bind]; split; try discriminate.
      intros _. exists C. split; [apply reach_root|exact Hmatch]. }
  destruct Hexact as (Htrue & Hfalse).
  split; [exact Htrue|]. split; [exact Hfalse|]. split.
  - intros Hd Hcalm.
    pose proof (search_is_exact_everywhere authorization_context role_chunk m Hm C) as H.
    destruct C as [| | | | |d] eqn:HC; try discriminate. destruct H as (_ & _ & H3).
    specialize (H3 Hcalm).
    destruct (find_item_in authorization_context role_chunk (VDict d) m) as [b|e];
      [|discriminate].
    exists b. split; [reflexivity|]. split.
    + intros ->. now apply Htrue.
    + intros (N & HN & Hmatch). destruct b; [reflexivity|].
      rewrite (Hfalse eq_refl N HN) in Hmatch. discriminate.
  - intros d Hflat. unfold found. split.
    + intros (N & HN & Hmatch). apply (reachable_flat d N Hflat) in HN.
      destruct HN as [->|(k & Hin)]; [now left | right; now exists k, N].
    + intros [Hmatch|(k & v & Hin & Hmatch)].
      * exists (VDict d). split; [apply reach_root|exact Hmatch].
      * exists v. split; [|exact Hmatch]. apply (reachable_flat d v Hflat). right. now exists k.
Qed.
End SearchTheorem.

(** The instance of [find_item_searches_reachable_nodes] for the rule fragment
    [{"role": ["administrator"]}] and a context that holds the role one level
    down. *)
Lemma find_item_searches_reachable_nodes_witness :
  found (engine := py_re) (VDict [])
        (VDict [("role", VList [VStr "administrator"])]) "MATCH"
        (VDict [("level1", VDict [("role", VList [VStr "administrator"; VStr "other"])])]).
Proof.
  apply (proj1 (find_item_searches_reachable_nodes (engine := py_re) (VDict [])
                  (VDict [("role", VList [VStr "administrator"])])
                  (VDict [("level1",
                           VDict [("role", VList [VStr "administrator"; VStr "other"])])])
                  "FIND")).
  reflexivity.
Defined.

(** C4 (as stated) fails: the context [{"a": "admin"}] has no nested mapping
    or sequence, [find_item] returns true on it because the value of [a]
    matches, and [match_item] on the context itself returns false. *)
Lemma find_item_differs_from_match_item :
  find_item (engine := py_re) (VDict []) (VStr "admin") (VDict [("a", VStr "admin")]) "MATCH"
  = Ok true
  /\ match_item (engine := py_re) (VDict []) (VStr "admin") (VDict [("a", VStr "admin")])
       "MATCH"
     = Ok false.
Proof. split; reflexivity. Qed.

(** ** The list-matching step and the two modes *)

Section Modes.
Context {engine : ReEngine}.
Variable authorization_context : value.

(** C1, at inputs on which the code departs from it.  The counter of
    [process_lists] counts matching pairs, so a context element that occurs
    twice is counted twice: the rule list [["a", "b"]] succeeds on the context
    list [["a", "a"]] in both modes although [b] does not appear in it.  An
    empty rule list never succeeds on a non-empty context list, although each
    of its (no) elements appears.  The first input reaches [process_lists]
    through [match_item] as well. *)
Theorem process_lists_counts_pairs :
  process_lists [VStr "a"; VStr "b"] [VStr "a"; VStr "a"] "MATCH" = Ok true
  /\ list_rule [VStr "a"; VStr "b"] [VStr "a"; VStr "a"] "MATCH" = false
  /\ process_lists [VStr "a"; VStr "b"] [VStr "a"; VStr "a"] "MATCH$" = Ok true
  /\ list_rule [VStr "a"; VStr "b"] [VStr "a"; VStr "a"] "MATCH$" = false
  /\ match_item authorization_context (VList [VStr "a"; VStr "b"])
       (VList [VStr "a"; VStr "a"]) "MATCH" = Ok true
  /\ process_lists [] [VStr "a"] "MATCH" = Ok false
  /\ list_rule [] [VStr "a"] "MATCH" = true.
Proof. repeat split; reflexivity. Qed.

(** C2, at an input on which the code departs from it.  With an engine in
    which [.*] compiles and matches the keys [a] and [b] (as in Python), the
    rule [{"r'.*'X": ["x"]}] holds on the context [{"a": ["x"], "b": ["x", "y"]}]
    in the strict mode and fails in the permissive one: the permissive mode
    counts two successes for the one key of the rule, the strict mode one.
    The permissive mode is the weaker one elsewhere: [["x"]] matches [["x", "y"]] under
    [MATCH] and not under [MATCH$]. *)
Theorem strict_mode_can_hold_alone :
  re_valid ".*" = true ->
  re_match ".*" "a" = true ->
  re_match ".*" "b" = true ->
  match_item authorization_context any_key_rule two_lists_context "MATCH$" = Ok true
  /\ match_item authorization_context any_key_rule two_lists_context "MATCH" = Ok false
  /\ match_item authorization_context (VList [VStr "x"]) (VList [VStr "x"; VStr "y"]) "MATCH"
     = Ok true
  /\ match_item authorization_context (VList [VStr "x"]) (VList [VStr "x"; VStr "y"]) "MATCH$"
     = Ok false.
Proof.
  intros Hvalid Ha Hb.
  assert (Hre : check_regex (VStr "r'.*'X") = Some {| pattern := ".*" |}).
  { rewrite check_regex_prefixed by reflexivity.
    change (slice 2 2 "r'.*'X") with ".*". now rewrite Hvalid. }
  repeat split; try reflexivity.
  - unfold any_key_rule, two_lists_context.
    cbn [match_item bound_context for_in]. rewrite Hre. cbn [pattern].
    rewrite Ha, Hb. reflexivity.
  - unfold any_key_rule, two_lists_context.
    cbn [match_item bound_context for_in]. rewrite Hre. cbn [pattern].
    rewrite Ha, Hb. reflexivity.
Qed.
End Modes.

(** The instance of [strict_mode_can_hold_alone] for the reference engine. *)
Lemma strict_mode_can_hold_alone_witness :
  match_item (engine := py_re) (VDict []) any_key_rule two_lists_context "MATCH$" = Ok true
  /\ match_item (engine := py_re) (VDict []) any_key_rule two_lists_context "MATCH" = Ok false
  /\ match_item (engine := py_re) (VDict []) (VList [VStr "x"]) (VList [VStr "x"; VStr "y"])
       "MATCH" = Ok true
  /\ match_item (engine := py_re) (VDict []) (VList [VStr "x"]) (VList [VStr "x"; VStr "y"])
       "MATCH$" = Ok false.
Proof.
  apply (strict_mode_can_hold_alone (engine := py_re) (VDict [])); reflexivity.
Defined.

(** ** Logical operators on a sequence of operands *)

Lemma filter_all_length {A : Type} (f : A -> bool) (l : list A) :
  Nat.eqb (List.length (filter f l)) (List.length l) = forallb f l.
Proof.
  induction l as [|x l IH]; [reflexivity|]. cbn [filter forallb List.length].
  destruct (f x); cbn [andb List.length].
  - exact IH.
  - pose proof (filter_length_le f l) as Hle.
    apply Nat.eqb_neq. lia.
Qed.

Lemma filter_some_length {A : Type} (f : A -> bool) (l : list A) :
  Nat.ltb 0 (List.length (filter f l)) = existsb f l.
Proof.
  induction l as [|x l IH]; [reflexivity|]. cbn [filter existsb].
  destruct (f x); [reflexivity | exact IH].
Qed.

Section SequenceOperands.
Context {engine : ReEngine}.
Variable authorization_context : value.

(** Without exceptions, the counter of the loop over the operands ends at the
    number of operands that hold. *)
Lemma operand_loop_counts (elements : list value) (counter : nat) :
  Forall (fun element => raises (check_rule authorization_context element) = false)
         elements ->
  for_in (R := bool)
         (fun element validator_counter =>
            tally (check_rule authorization_context element) validator_counter)
         elements counter
  = Continue (counter
              + List.length (filter (fun element =>
                                       holds (check_rule authorization_context element))
                                    elements)).
Proof.
  intros Hcalm. revert counter.
  induction Hcalm as [|element elements Helement _ IH]; intros counter; cbn [for_in filter].
  - f_equal. cbn [List.length]. lia.
  - destruct (check_rule authorization_context element) as [[|]|e];
      try discriminate; cbn [tally holds Nat.b2n]; rewrite IH; f_equal;
      cbn [List.length]; lia.
Qed.

(** X3 (the part of C3 that holds): on a sequence of operands none of which
    raises, [AND] is true exactly when every operand is, [OR] when at least
    one is, and [NOT] when not all are; with no operand [AND] is true and
    [OR] and [NOT] are false. *)
Theorem operators_on_sequences (elements : list value) :
  Forall (fun element => raises (check_rule authorization_context element) = false)
         elements ->
  check_rule authorization_context (VDict [("AND", VList elements)])
  = Ok (forallb (fun element => holds (check_rule authorization_context element)) elements)
  /\ check_rule authorization_context (VDict [("OR", VList elements)])
     = Ok (existsb (fun element => holds (check_rule authorization_context element)) elements)
  /\ check_rule authorization_context (VDict [("NOT", VList elements)])
     = Ok (negb (forallb (fun element => holds (check_rule authorization_context element))
                         elements)).
Proof.
  intros Hcalm.
  pose proof (operand_loop_counts elements 0 Hcalm) as Hcount. cbn [Nat.add] in Hcount.
  repeat split; rewrite check_rule_single; unfold rule_key_step;
    cbn [str_in existsb _logical_operators String.eqb Ascii.eqb Bool.eqb orb andb
         operand_count];
    rewrite Hcount; unfold check_logic_operation, logical_operator;
    cbn [nth _logical_operators String.eqb Ascii.eqb Bool.eqb andb py_len bind].
  - rewrite filter_all_length. now destruct (forallb _ elements).
  - rewrite filter_some_length. now destruct (existsb _ elements).
  - rewrite filter_all_length. now destruct (forallb _ elements).
Qed.
End SequenceOperands.

(** The instance of [operators_on_sequences] for the rule
    [{"NOT": [{"MATCH": {"disabled": "true"}}]}] on the context
    [{"disabled": "false"}]. *)
Lemma operators_on_sequences_witness :
  check_rule (engine := py_re) (VDict [("disabled", VStr "false")])
    (VDict [("NOT", VList [VDict [("MATCH", VDict [("disabled", VStr "true")])]])])
  = Ok (negb (forallb (fun element =>
                         holds (check_rule (engine := py_re)
                                  (VDict [("disabled", VStr "false")]) element))
                      [VDict [("MATCH", VDict [("disabled", VStr "true")])]])).
Proof.
  apply (operators_on_sequences (engine := py_re) (VDict [("disabled", VStr "false")])
           [VDict [("MATCH", VDict [("disabled", VStr "true")])]]).
  repeat constructor.
Defined.

(** ** What the list-matching step computes *)

(** A loop whose body always goes on runs to its end. *)
Lemma for_in_continues_in {X S : Type} (step : X -> S -> flow bool S) (xs : list X) (s : S) :
  (forall x s, In x xs -> exists s', step x s = Continue s') ->
  exists s', for_in step xs s = Continue s'.
Proof.
  revert s. induction xs as [|x xs IH]; intros s Hstep; cbn [for_in].
  - now exists s.
  - destruct (Hstep x s (or_introl eq_refl)) as (s' & ->).
    apply IH. intros y t Hy. apply Hstep. now right.
Qed.

Lemma for_in_ext_in {X R S : Type} (f g : X -> S -> flow R S) (xs : list X) (s : S) :
  (forall x s, In x xs -> f x s = g x s) -> for_in f xs s = for_in g xs s.
Proof.
  revert s. induction xs as [|x xs IH]; intros s Hfg; [reflexivity|].
  cbn [for_in]. rewrite Hfg by now left.
  destruct (g x s); auto. apply IH. intros y t Hy. apply Hfg. now right.
Qed.

Section PairCounting.
Context {engine : ReEngine}.

Variable role_chunk auth_context : list value.

(** One iteration without exception adds the truth of the pair to the
    counter and then tests it. *)
Lemma process_pair_match (value v : value) (counter : nat) :
  safe_pair v value ->
  process_pair role_chunk auth_context "MATCH" value v counter
  = if Nat.eqb (counter + Nat.b2n (element_matches v value)) (List.length role_chunk)
    then Return true
    else Continue (counter + Nat.b2n (element_matches v value)).
Proof.
  intros Hsafe. unfold process_pair, element_matches.
  destruct (check_regex v) as [regex|] eqn:Hre.
  - destruct Hsafe as [Hnone|Hstr]; [congruence|].
    destruct value; try discriminate. cbn [Pattern_match bind].
    destruct (re_match (pattern regex) s); cbn [Nat.b2n];
      rewrite ?Nat.add_0_r; reflexivity.
  - destruct (py_eq value v); cbn [Nat.b2n]; rewrite ?Nat.add_0_r; reflexivity.
Qed.

Lemma process_pair_strict (value v : value) (counter : nat) :
  safe_pair v value ->
  process_pair role_chunk auth_context "MATCH$" value v counter
  = if Nat.eqb (counter + Nat.b2n (element_matches v value)) (List.length auth_context)
       && Nat.eqb (counter + Nat.b2n (element_matches v value)) (List.length role_chunk)
    then Return true
    else Continue (counter + Nat.b2n (element_matches v value)).
Proof.
  intros Hsafe. unfold process_pair, element_matches.
  destruct (check_regex v) as [regex|] eqn:Hre.
  - destruct Hsafe as [Hnone|Hstr]; [congruence|].
    destruct value; try discriminate. cbn [Pattern_match bind].
    destruct (re_match (pattern regex) s); cbn [Nat.b2n];
      rewrite ?Nat.add_0_r; reflexivity.
  - destruct (py_eq value v); cbn [Nat.b2n]; rewrite ?Nat.add_0_r; reflexivity.
Qed.

(** The inner loop, started below the target [n], stops as soon as the
    counter reaches [n]. *)
Lemma inner_loop_counts (step : value -> nat -> flow bool nat) (n : nat)
      (vs : list value) (value : value) :
  (forall v counter,
      In v vs ->
      step v counter
      = if Nat.eqb (counter + Nat.b2n (element_matches v value)) n
        then Return true
        else Continue (counter + Nat.b2n (element_matches v value))) ->
  forall counter,
    counter < n ->
    for_in step vs counter
    = if Nat.leb n (counter + List.length (filter (fun v => element_matches v value) vs))
      then Return true
      else Continue (counter + List.length (filter (fun v => element_matches v value) vs)).
Proof.
  revert value. induction vs as [|v vs IH]; intros value Hstep counter Hlt; cbn [for_in].
  - cbn [filter List.length]. rewrite Nat.add_0_r.
    destruct (Nat.leb_spec n counter); [lia|reflexivity].
  - rewrite Hstep by now left.
    specialize (IH value (fun v0 c H => Hstep v0 c (or_intror H))).
    cbn [filter].
    destruct (element_matches v value); cbn [Nat.b2n List.length];
      set (rest := List.length (filter (fun v => element_matches v value) vs)) in *.
    + destruct (Nat.eqb_spec (counter + 1) n) as [Heq|Hne].
      * destruct (Nat.leb_spec n (counter + S rest)); [reflexivity|lia].
      * rewrite IH by lia.
        replace (counter + 1 + rest) with (counter + S rest) by lia. reflexivity.
    + rewrite Nat.add_0_r.
      destruct (Nat.eqb_spec counter n) as [Heq|Hne]; [lia|].
      apply IH. exact Hlt.
Qed.

(** The outer loop, with the same inner loop for every context element. *)
Lemma outer_loop_counts (inner : value -> nat -> flow bool nat) (n : nat)
      (values : list value) :
  (forall value counter,
      In value values ->
      counter < n ->
      inner value counter
      = if Nat.leb n (counter
                      + List.length (filter (fun v => element_matches v value) role_chunk))
        then Return true
        else Continue (counter
                       + List.length (filter (fun v => element_matches v value) role_chunk))) ->
  forall counter,
    counter < n ->
    for_in inner values counter
    = if Nat.leb n (counter + matching_pairs role_chunk values)
      then Return true
      else Continue (counter + matching_pairs role_chunk values).
Proof.
  unfold matching_pairs.
  induction values as [|value values IH]; intros Hinner counter Hlt; cbn [for_in map].
  - cbn [list_sum fold_right]. rewrite Nat.add_0_r.
    destruct (Nat.leb_spec n counter); [lia|reflexivity].
  - change (list_sum (?x :: ?l)) with (x + list_sum l).
    rewrite (Hinner value counter (or_introl eq_refl) Hlt).
    specialize (IH (fun x c H => Hinner x c (or_intror H))).
    set (here := List.length (filter (fun v => element_matches v value) role_chunk)).
    set (later := list_sum (map _ values)) in *.
    destruct (Nat.leb_spec n (counter + here)) as [Hge|Hlt'].
    + destruct (Nat.leb_spec n (counter + (here + later))); [reflexivity|lia].
    + rewrite IH by exact Hlt'.
      replace (counter + here + later) with (counter + (here + later)) by lia.
      reflexivity.
Qed.

Hypothesis pairs_are_safe :
  forall value v, In value auth_context -> In v role_chunk -> safe_pair v value.

(** Under [MATCH] the step succeeds exactly when the rule list is not empty
    and the number of matching pairs reaches its length. *)
Lemma process_lists_permissive_count :
  process_lists role_chunk auth_context "MATCH"
  = Ok (Nat.ltb 0 (List.length role_chunk)
        && Nat.leb (List.length role_chunk) (matching_pairs role_chunk auth_context)).
Proof.
  unfold process_lists.
  destruct role_chunk as [|v0 vs] eqn:Hrole.
  - cbn [List.length Nat.ltb Nat.leb andb].
    destruct (for_in_continues_in
                (fun value counter =>
                   for_in (process_pair [] auth_context "MATCH" value) [] counter)
                auth_context 0) as (s' & ->); [|reflexivity].
    intros value s _. now exists s.
  - rewrite <- Hrole in *.
    rewrite (outer_loop_counts _ (List.length role_chunk) auth_context).
    + cbn [Nat.add].
      replace (Nat.ltb 0 (List.length role_chunk)) with true
        by (rewrite Hrole; reflexivity).
      now destruct (Nat.leb _ _).
    + intros value counter Hvalue Hlt.
      apply inner_loop_counts; [|exact Hlt].
      intros v c Hv. apply process_pair_match. now apply pairs_are_safe.
    + rewrite Hrole. cbn [List.length]. lia.
Qed.

(** Under [MATCH$] the two lists must also have the same length. *)
Lemma process_lists_strict_count :
  process_lists role_chunk auth_context "MATCH$"
  = Ok (Nat.eqb (List.length role_chunk) (List.length auth_context)
        && Nat.ltb 0 (List.length role_chunk)
        && Nat.leb (List.length role_chunk) (matching_pairs role_chunk auth_context)).
Proof.
  destruct (Nat.eqb_spec (List.length role_chunk) (List.length auth_context)) as [Hlen|Hlen];
    cbn [andb].
  - (* with equal lengths the two tests coincide *)
    rewrite <- process_lists_permissive_count. unfold process_lists. f_equal.
    apply for_in_ext_in. intros value counter Hvalue.
    apply for_in_ext_in. intros v c Hv.
    rewrite process_pair_strict, process_pair_match by now apply pairs_are_safe.
    now rewrite <- Hlen, Bool.andb_diag.
  - (* with different lengths the strict test never holds *)
    unfold process_lists.
    destruct (for_in_continues_in
                (fun value counter =>
                   for_in (process_pair role_chunk auth_context "MATCH$" value)
                          role_chunk counter)
                auth_context 0) as (s' & ->); [|reflexivity].
    intros value counter Hvalue.
    apply for_in_continues_in. intros v c Hv.
    rewrite process_pair_strict by now apply pairs_are_safe.
    destruct (Nat.eqb_spec (c + Nat.b2n (element_matches v value)) (List.length auth_context))
      as [H1|H1]; cbn [andb]; [|eauto].
    destruct (Nat.eqb_spec (c + Nat.b2n (element_matches v value)) (List.length role_chunk))
      as [H2|H2]; [congruence|eauto].
Qed.

(** X1: what [process_lists] computes when no pair raises (no regex literal
    of the rule list meets a context element that is no string): under [MATCH]
    it succeeds exactly when the rule list is not empty and the number of
    matching pairs reaches its length; under [MATCH$] the two lists must also
    have the same length. *)
Theorem process_lists_by_pairs :
  process_lists role_chunk auth_context "MATCH"
  = Ok (Nat.ltb 0 (List.length role_chunk)
        && Nat.leb (List.length role_chunk) (matching_pairs role_chunk auth_context))
  /\ process_lists role_chunk auth_context "MATCH$"
     = Ok (Nat.eqb (List.length role_chunk) (List.length auth_context)
           && Nat.ltb 0 (List.length role_chunk)
           && Nat.leb (List.length role_chunk) (matching_pairs role_chunk auth_context)).
Proof.
  split.
  - apply process_lists_permissive_count.
  - apply process_lists_strict_count.
Qed.
End PairCounting.

(** The instance of [process_lists_by_pairs] for the rule list [["x"]] and the
    context list [["x", "y"]]. *)
Lemma process_lists_by_pairs_witness :
  process_lists (engine := py_re) [VStr "x"] [VStr "x"; VStr "y"] "MATCH"
  = Ok (Nat.ltb 0 (List.length [VStr "x"])
        && Nat.leb (List.length [VStr "x"])
                   (matching_pairs (H := py_re) [VStr "x"] [VStr "x"; VStr "y"]))
  /\ process_lists (engine := py_re) [VStr "x"] [VStr "x"; VStr "y"] "MATCH$"
     = Ok (Nat.eqb (List.length [VStr "x"]) (List.length [VStr "x"; VStr "y"])
           && Nat.ltb 0 (List.length [VStr "x"])
           && Nat.leb (List.length [VStr "x"])
                      (matching_pairs (H := py_re) [VStr "x"] [VStr "x"; VStr "y"])).
Proof.
  apply (process_lists_by_pairs (engine := py_re) [VStr "x"] [VStr "x"; VStr "y"]).
  intros value v _ [<-|[]]. left. reflexivity.
Defined.

Section Covering.
Context {engine : ReEngine}.

(** The pairs can be counted rule element by rule element. *)
Lemma matching_pairs_cons (v : value) (vs auth_context : list value) :
  matching_pairs (v :: vs) auth_context
  = List.length (filter (element_matches v) auth_context) + matching_pairs vs auth_context.
Proof.
  unfold matching_pairs. induction auth_context as [|x xs IH]; [reflexivity|].
  cbn [map]. change (list_sum (?a :: ?l)) with (a + list_sum l). rewrite IH.
  cbn [filter]. destruct (element_matches v x); cbn [List.length]; lia.
Qed.

Lemma every_element_is_a_pair (role_chunk auth_context : list value) :
  every_element_appears role_chunk auth_context = true ->
  List.length role_chunk <= matching_pairs role_chunk auth_context.
Proof.
  unfold every_element_appears.
  induction role_chunk as [|v vs IH]; intros Hall; cbn [List.length]; [lia|].
  cbn [forallb] in Hall. apply andb_prop in Hall as [Hv Hvs].
  rewrite matching_pairs_cons. rewrite <- filter_some_length in Hv.
  apply Nat.ltb_lt in Hv. specialize (IH Hvs). lia.
Qed.

(** X2 (the direction of C1 that holds for a rule list that is not empty):
    if no pair raises and every element of the rule list appears in the context list,
    [process_lists] succeeds under [MATCH], and under [MATCH$] when the lists
    have the same length. *)
Theorem process_lists_when_all_appear (role_chunk auth_context : list value) :
  (forall value v, In value auth_context -> In v role_chunk -> safe_pair v value) ->
  role_chunk <> [] ->
  every_element_appears role_chunk auth_context = true ->
  process_lists role_chunk auth_context "MATCH" = Ok true
  /\ (List.length role_chunk = List.length auth_context ->
      process_lists role_chunk auth_context "MATCH$" = Ok true).
Proof.
  intros Hsafe Hne Hall.
  rewrite (process_lists_permissive_count role_chunk auth_context Hsafe).
  rewrite (process_lists_strict_count role_chunk auth_context Hsafe).
  apply every_element_is_a_pair in Hall. apply Nat.leb_le in Hall. rewrite Hall.
  assert (Hpos : Nat.ltb 0 (List.length role_chunk) = true).
  { destruct role_chunk; [congruence | reflexivity]. }
  rewrite Hpos. split; [reflexivity|].
  intros ->. now rewrite Nat.eqb_refl.
Qed.
End Covering.

(** The instance of [process_lists_when_all_appear] for the rule list
    [["administrator"]] and the context list [["administrator", "other"]]. *)
Lemma process_lists_when_all_appear_witness :
  process_lists (engine := py_re) [VStr "administrator"]
    [VStr "administrator"; VStr "other"] "MATCH" = Ok true
  /\ (List.length [VStr "administrator"]
      = List.length [VStr "administrator"; VStr "other"] ->
      process_lists (engine := py_re) [VStr "administrator"]
        [VStr "administrator"; VStr "other"] "MATCH$" = Ok true).
Proof.
  apply (process_lists_when_all_appear (engine := py_re) [VStr "administrator"]
           [VStr "administrator"; VStr "other"]).
  - intros value v _ [<-|[]]. left. reflexivity.
  - discriminate.
  - reflexivity.
Defined.

(** ** The strict mode against the permissive mode *)

Lemma for_in_follows {X S : Type} (strict permissive : X -> S -> flow bool S) (xs : list X) :
  follows strict permissive ->
  forall s,
    (for_in strict xs s = Return true -> for_in permissive xs s = Return true)
    /\ (forall s', for_in strict xs s = Continue s' ->
                   for_in permissive xs s = Continue s' \/ for_in permissive xs s = Return true)
    /\ for_in strict xs s <> Return false.
Proof.
  intros Hfollows. induction xs as [|x xs IH]; intros s; cbn [for_in].
  - repeat split; try discriminate. intros s' H. now left.
  - destruct (Hfollows x s) as (H1 & H2 & H3).
    destruct (strict x s) as [t|[|]|e].
    + destruct (H2 t eq_refl) as [-> | ->].
      * apply IH.
      * repeat split; auto; apply IH.
    + rewrite (H1 eq_refl). repeat split; try discriminate; auto.
    + now contradiction H3.
    + repeat split; discriminate.
Qed.

Section StrictAndPermissive.
Context {engine : ReEngine}.
Variable authorization_context : value.

Lemma process_pair_follows (role_chunk auth_context : list value) (item : value) :
  follows (process_pair role_chunk auth_context "MATCH$" item)
          (process_pair role_chunk auth_context "MATCH" item).
Proof.
  intros v counter. unfold process_pair.
  destruct (match check_regex v with
            | Some regex =>
                matched <- Pattern_match regex item ;;
                Ok (if matched then counter + 1 else counter)
            | None => Ok (if py_eq item v then counter + 1 else counter)
            end) as [c|e]; [|repeat split; discriminate].
  cbn [function_name nth _functions String.eqb Ascii.eqb Bool.eqb andb].
  destruct (Nat.eqb c (List.length role_chunk)), (Nat.eqb c (List.length auth_context));
    cbn [andb]; repeat split; try discriminate; auto.
Qed.

(** The strict mode of the list-matching step implies the permissive one,
    exceptions included. *)
Lemma process_lists_follows (role_chunk auth_context : list value) (strict : bool) :
  process_lists role_chunk auth_context "MATCH$" = Ok strict ->
  exists permissive,
    process_lists role_chunk auth_context "MATCH" = Ok permissive
    /\ (strict = true -> permissive = true).
Proof.
  unfold process_lists.
  destruct (for_in_follows
              (fun item counter =>
                 for_in (process_pair role_chunk auth_context "MATCH$" item) role_chunk counter)
              (fun item counter =>
                 for_in (process_pair role_chunk auth_context "MATCH" item) role_chunk counter)
              auth_context) with (s := 0) as (H1 & H2 & H3).
  { intros item counter. apply for_in_follows. apply process_pair_follows. }
  destruct (for_in _ auth_context 0) as [c|[|]|e] eqn:Hstrict in |- * at 1.
  - cbn [finish]. intros Heq. injection Heq as <-.
    destruct (H2 c) as [-> | ->]. { exact Hstrict. }
    + exists false. split; [reflexivity | discriminate].
    + exists true. split; reflexivity.
  - rewrite Hstrict in H1. rewrite (H1 eq_refl). intros _. now exists true.
  - rewrite Hstrict in H3. now contradiction H3.
  - discriminate.
Qed.

Lemma match_item_tail_follows (role_chunk auth_context : value) (strict : bool) :
  match_item_tail role_chunk auth_context "MATCH$" = Ok strict ->
  exists permissive,
    match_item_tail role_chunk auth_context "MATCH" = Ok permissive
    /\ (strict = true -> permissive = true).
Proof.
  unfold match_item_tail.
  destruct (py_eq role_chunk auth_context); [intros H; now exists strict|].
  destruct (if is_str role_chunk then VList [role_chunk] else role_chunk) as [| | | |l|d];
    try (intros H; now exists strict).
  destruct auth_context; try (intros H; now exists strict).
  apply process_lists_follows.
Qed.

Lemma match_item_leaf_follows (role_chunk auth_context : value) (strict : bool) :
  match_item_leaf role_chunk auth_context "MATCH$" = Ok strict ->
  exists permissive,
    match_item_leaf role_chunk auth_context "MATCH" = Ok permissive
    /\ (strict = true -> permissive = true).
Proof.
  unfold match_item_leaf.
  destruct (preprocess_to_list role_chunk auth_context) as [chunks|e]; cbn [bind];
    [|discriminate].
  destruct (check_regex (fst chunks)) as [regex|]; [|apply match_item_tail_follows].
  destruct (for_in _ _ tt) as [[]|r|e]; [apply match_item_tail_follows| |discriminate].
  intros H. now exists strict.
Qed.

Lemma match_item_unfold (role_chunk auth_context : value) (mode : string) :
  match_item authorization_context role_chunk auth_context mode
  = match role_chunk, bound_context authorization_context auth_context with
    | VDict role_items, VDict auth_items =>
        finish
          (for_in (fun entry validator_counter =>
                     match_key_step authorization_context mode auth_items
                       (fst entry) (snd entry) validator_counter)
                  role_items 0)
          (fun validator_counter => Nat.eqb validator_counter (List.length role_items))
    | _, _ =>
        match_item_leaf role_chunk (bound_context authorization_context auth_context) mode
    end.
Proof.
  destruct role_chunk; cbn [match_item]; try reflexivity.
  destruct (bound_context authorization_context auth_context); try reflexivity.
  f_equal. apply for_in_ext. intros [key_rule value_rule] counter.
  unfold match_key_step. cbn [fst snd].
  destruct (check_regex (VStr key_rule)) as [regex|]; [|reflexivity].
  rewrite (for_in_ext
             (fun '(key_auth, value_auth) validator_counter =>
                if re_match (pattern regex) key_auth
                then tally (match_item authorization_context value_rule value_auth mode)
                           validator_counter
                else Continue validator_counter)
             (fun entry validator_counter =>
                if re_match (pattern regex) (fst entry)
                then tally (match_item authorization_context value_rule (snd entry) mode)
                           validator_counter
                else Continue validator_counter)); [reflexivity|].
  intros [key_auth value_auth] c. reflexivity.
Qed.

(** A key that is no regex literal counts for at most one success. *)
Lemma match_key_step_plain (mode : string) (auth_items : list (string * value))
      (key_rule : string) (value_rule : value) (validator_counter : nat) :
  check_regex (VStr key_rule) = None ->
  match_key_step authorization_context mode auth_items key_rule value_rule validator_counter
  = match dict_get key_rule auth_items with
    | Some value_auth =>
        tally (match_item authorization_context value_rule value_auth mode) validator_counter
    | None => Continue validator_counter
    end.
Proof. intros Hplain. unfold match_key_step. now rewrite Hplain. Qed.

Lemma plain_keys_cons (k : string) (v : value) (rest : list (string * value)) :
  plain_keys (VDict ((k, v) :: rest)) = true ->
  check_regex (VStr k) = None /\ plain_keys v = true /\ plain_keys (VDict rest) = true.
Proof.
  cbn [plain_keys]. destruct (check_regex (VStr k)); [discriminate|].
  intros H. apply andb_prop in H as [Hv Hrest]. auto.
Qed.

(** The loop over the keys of a rule mapping: the successes of the strict
    mode are successes of the permissive mode, and there is at most one for
    each key. *)
Lemma key_loop_follows (auth_items : list (string * value)) (items : list (string * value)) :
  Forall (fun entry => permissive_follows authorization_context (snd entry)) items ->
  plain_keys (VDict items) = true ->
  forall counter total,
    for_in (fun entry validator_counter =>
              match_key_step authorization_context "MATCH$" auth_items
                (fst entry) (snd entry) validator_counter)
           items counter
    = Continue (R := bool) total ->
    exists strict permissive,
      total = counter + strict
      /\ strict <= permissive <= List.length items
      /\ forall counter',
           for_in (fun entry validator_counter =>
                     match_key_step authorization_context "MATCH" auth_items
                       (fst entry) (snd entry) validator_counter)
                  items counter'
           = Continue (counter' + permissive).
Proof.
  induction 1 as [|[k v] items Hentry _ IH]; intros Hplain counter total; cbn [for_in].
  - intros H. injection H as <-. exists 0, 0.
    repeat split; auto; try (intros; f_equal; lia).
  - apply plain_keys_cons in Hplain as (Hk & Hv & Hrest). cbn [fst snd] in *.
    rewrite match_key_step_plain by exact Hk.
    destruct (dict_get k auth_items) as [value_auth|] eqn:Hget.
    + destruct (match_item authorization_context v value_auth "MATCH$") as [b|e] eqn:Hstrict;
        cbn [tally]; [|discriminate].
      destruct (Hentry Hv value_auth b Hstrict) as (b' & Hpermissive & Himp).
      intros Hloop. destruct (IH Hrest _ _ Hloop) as (j & j' & -> & Hle & Hrun).
      exists (Nat.b2n b + j), (Nat.b2n b' + j'). repeat split.
      * lia.
      * destruct b; [rewrite (Himp eq_refl)|]; destruct b'; cbn [Nat.b2n]; lia.
      * destruct b'; cbn [Nat.b2n List.length]; lia.
      * intros counter'. cbn [for_in fst snd].
        rewrite match_key_step_plain by exact Hk. rewrite Hget.
        rewrite Hpermissive. cbn [tally]. rewrite Hrun. f_equal. lia.
    + intros Hloop. destruct (IH Hrest _ _ Hloop) as (j & j' & -> & Hle & Hrun).
      exists j, j'. repeat split; try lia.
      * cbn [List.length]. lia.
      * intros counter'. cbn [for_in fst snd].
        rewrite match_key_step_plain by exact Hk. rewrite Hget. apply Hrun.
Qed.

Lemma match_key_step_no_return (mode : string) (auth_items : list (string * value))
      (key_rule : string) (value_rule : value) (validator_counter : nat) (r : bool) :
  match_key_step authorization_context mode auth_items key_rule value_rule validator_counter
  <> Return r.
Proof.
  unfold match_key_step.
  destruct (check_regex (VStr key_rule)) as [regex|].
  - destruct (for_in _ auth_items validator_counter) as [c|r'|e] eqn:Hloop.
    + destruct (dict_get key_rule auth_items); [apply tally_no_return | discriminate].
    + exfalso. revert Hloop. apply for_in_no_return. intros entry c r''.
      destruct (re_match (pattern regex) (fst entry)); [apply tally_no_return | discriminate].
    + discriminate.
  - destruct (dict_get key_rule auth_items); [apply tally_no_return | discriminate].
Qed.

Lemma permissive_follows_everywhere (role_chunk : value) :
  permissive_follows authorization_context role_chunk.
Proof.
  induction role_chunk as [| | | |l _|d IH] using value_nested_ind;
    intros Hplain auth_context strict; rewrite !match_item_unfold;
    try apply match_item_leaf_follows.
  destruct (bound_context authorization_context auth_context) as [| | | | |auth_items];
    try apply match_item_leaf_follows.
  destruct (for_in _ d 0) as [total|r|e] eqn:Hloop in |- * at 1; cbn [finish].
  - destruct (key_loop_follows auth_items d IH Hplain 0 total Hloop)
      as (j & j' & -> & Hle & Hrun).
    rewrite Hrun. cbn [finish Nat.add]. intros H. injection H as <-.
    exists (Nat.eqb j' (List.length d)). split; [reflexivity|].
    intros Heq. apply Nat.eqb_eq in Heq. apply Nat.eqb_eq. lia.
  - exfalso. revert Hloop. apply for_in_no_return. intros entry c r'.
    apply match_key_step_no_return.
  - discriminate.
Qed.

(** X4 (the part of C2 that holds): for a rule fragment in which no key of a
    mapping is a regex literal, a match in the strict mode is a match in the
    permissive mode. *)
Theorem strict_implies_permissive (role_chunk auth_context : value) :
  plain_keys role_chunk = true ->
  match_item authorization_context role_chunk auth_context "MATCH$" = Ok true ->
  match_item authorization_context role_chunk auth_context "MATCH" = Ok true.
Proof.
  intros Hplain Hstrict.
  destruct (permissive_follows_everywhere role_chunk Hplain auth_context true Hstrict)
    as (b & Hb & Himp).
  now rewrite Hb, (Himp eq_refl).
Qed.
End StrictAndPermissive.

(** The instance of [strict_implies_permissive] for the rule fragment
    [{"r2": "admin"}] and the context [{"r2": "admin", "r3": "other"}]. *)
Lemma strict_implies_permissive_witness :
  match_item (engine := py_re) (VDict []) (VDict [("r2", VStr "admin")])
    (VDict [("r2", VStr "admin"); ("r3", VStr "other")]) "MATCH" = Ok true.
Proof.
  apply (strict_implies_permissive (engine := py_re) (VDict [])
           (VDict [("r2", VStr "admin")])
           (VDict [("r2", VStr "admin"); ("r3", VStr "other")])); reflexivity.
Defined.

(** ** What the evaluator tolerates *)

Section Leniency.
Context {engine : ReEngine}.
Variable authorization_context : value.

(** X5: a logical operator whose operand is one rule node with a single key,
    evaluated without raising: [AND] and [OR] evaluate to the operand, [NOT]
    to its negation. *)
Theorem operators_on_single_key_operand (op_key : string) (op_value : value)
        (operand : bool) :
  check_rule authorization_context (VDict [(op_key, op_value)]) = Ok operand ->
  check_rule authorization_context (VDict [("AND", VDict [(op_key, op_value)])]) = Ok operand
  /\ check_rule authorization_context (VDict [("OR", VDict [(op_key, op_value)])]) = Ok operand
  /\ check_rule authorization_context (VDict [("NOT", VDict [(op_key, op_value)])])
     = Ok (negb operand).
Proof.
  intros Hoperand.
  repeat split; rewrite check_rule_single; unfold rule_key_step;
    cbn [str_in existsb _logical_operators String.eqb Ascii.eqb Bool.eqb orb andb
         operand_count];
    rewrite Hoperand; unfold check_logic_operation, logical_operator;
    cbn [tally nth _logical_operators String.eqb Ascii.eqb Bool.eqb andb py_len bind
         List.length Nat.add];
    now destruct operand.
Qed.

(** X6: what the evaluator does tolerate.  A string that starts with [r']
    and whose pattern does not compile is no regex, and a rule key that is
    neither a logical operator nor a function is skipped. *)
Theorem malformed_clauses_are_ignored :
  (forall s, re_valid (slice 2 2 s) = false -> check_regex (VStr s) = None)
  /\ (forall k v rest,
        str_in k _logical_operators = false ->
        str_in k _functions = false ->
        check_rule authorization_context (VDict ((k, v) :: rest))
        = check_rule authorization_context (VDict rest)).
Proof.
  split.
  - intros s Hinvalid. unfold check_regex, _initial_index_for_regex.
    destruct (negb (String.prefix _regex_prefix s)); [reflexivity|]. now rewrite Hinvalid.
  - intros k v rest Hop Hfun. rewrite check_rule_cons. unfold rule_key_step.
    now rewrite Hop, Hfun.
Qed.
End Leniency.

(** The instance of [operators_on_single_key_operand] for the operand
    [{"MATCH": {}}] on the empty context. *)
Lemma operators_on_single_key_operand_witness :
  check_rule (engine := py_re) (VDict []) (VDict [("AND", VDict [("MATCH", VDict [])])])
  = Ok true
  /\ check_rule (engine := py_re) (VDict []) (VDict [("OR", VDict [("MATCH", VDict [])])])
     = Ok true
  /\ check_rule (engine := py_re) (VDict []) (VDict [("NOT", VDict [("MATCH", VDict [])])])
     = Ok (negb true).
Proof.
  apply (operators_on_single_key_operand (engine := py_re) (VDict []) "MATCH" (VDict []) true).
  reflexivity.
Defined.

(** The instance of [malformed_clauses_are_ignored] for the literal [r'*'X],
    whose pattern [*] has nothing to repeat, and the rule key [XOR]. *)
Lemma malformed_clauses_are_ignored_witness :
  check_regex (engine := py_re) (VStr "r'*'X") = None
  /\ check_rule (engine := py_re) (VDict [])
       (VDict [("XOR", VList []); ("MATCH", VDict [])])
     = check_rule (engine := py_re) (VDict []) (VDict [("MATCH", VDict [])]).
Proof.
  destruct (malformed_clauses_are_ignored (engine := py_re) (VDict [])) as (Hregex & Hkey).
  split.
  - apply Hregex. reflexivity.
  - apply Hkey; reflexivity.
Defined.

(** ** Mappings, scalars and regex literals in [match_item] *)

Section MappingMatch.
Context {engine : ReEngine}.
Variable authorization_context : value.

Lemma bound_context_idempotent (auth_context : value) :
  bound_context authorization_context (bound_context authorization_context auth_context)
  = bound_context authorization_context auth_context.
Proof.
  destruct auth_context; try reflexivity. cbn [bound_context].
  now destruct authorization_context.
Qed.

(** Binding the context beforehand changes nothing. *)
Lemma match_item_bound (role_chunk auth_context : value) (mode : string) :
  match_item authorization_context role_chunk
    (bound_context authorization_context auth_context) mode
  = match_item authorization_context role_chunk auth_context mode.
Proof. now rewrite !match_item_unfold, bound_context_idempotent. Qed.

(** Without regex keys and without exceptions, the counter of the loop over
    the rule keys ends at the number of keys that are present in the context
    with a value that matches. *)
Lemma plain_key_loop_counts (mode : string) (auth_items items : list (string * value)) :
  (forall k v, In (k, v) items -> check_regex (VStr k) = None) ->
  (forall k v value_auth,
      In (k, v) items -> dict_get k auth_items = Some value_auth ->
      raises (match_item authorization_context v value_auth mode) = false) ->
  forall counter,
    for_in (R := bool)
           (fun entry validator_counter =>
              match_key_step authorization_context mode auth_items
                (fst entry) (snd entry) validator_counter)
           items counter
    = Continue
        (counter
         + List.length
             (filter (fun entry =>
                        match dict_get (fst entry) auth_items with
                        | Some value_auth =>
                            holds (match_item authorization_context (snd entry)
                                     value_auth mode)
                        | None => false
                        end)
                     items)).
Proof.
  induction items as [|[k v] items IH]; intros Hplain Hcalm counter; cbn [for_in filter].
  - f_equal. cbn [List.length]. lia.
  - cbn [fst snd]. rewrite match_key_step_plain by (apply (Hplain k v); now left).
    specialize (IH (fun k' v' H => Hplain k' v' (or_intror H))
                   (fun k' v' va H => Hcalm k' v' va (or_intror H))).
    destruct (dict_get k auth_items) as [value_auth|] eqn:Hget.
    + specialize (Hcalm k v value_auth (or_introl eq_refl) Hget).
      destruct (match_item authorization_context v value_auth mode) as [[|]|e];
        try discriminate; cbn [tally holds Nat.b2n]; rewrite IH; f_equal;
        cbn [List.length]; lia.
    + rewrite IH. reflexivity.
Qed.

(** X7: a rule mapping without regex keys, against a context mapping, is the
    conjunction of its keys: when no value comparison raises, it matches
    exactly when every key of the rule is a key of the context whose value
    matches the rule's value.  A rule key that the context lacks makes it
    fail.  This is so in every mode. *)
Theorem mapping_match_is_conjunctive (mode : string)
        (role_items auth_items : list (string * value)) :
  (forall k v, In (k, v) role_items -> check_regex (VStr k) = None) ->
  (forall k v value_auth,
      In (k, v) role_items -> dict_get k auth_items = Some value_auth ->
      raises (match_item authorization_context v value_auth mode) = false) ->
  match_item authorization_context (VDict role_items) (VDict auth_items) mode
  = Ok (forallb (fun entry =>
                   match dict_get (fst entry) auth_items with
                   | Some value_auth =>
                       holds (match_item authorization_context (snd entry) value_auth mode)
                   | None => false
                   end)
                role_items)
  /\ (forall k v, In (k, v) role_items -> dict_get k auth_items = None ->
        match_item authorization_context (VDict role_items) (VDict auth_items) mode
        = Ok false).
Proof.
  intros Hplain Hcalm.
  assert (Hall : match_item authorization_context (VDict role_items) (VDict auth_items) mode
                 = Ok (forallb (fun entry =>
                                  match dict_get (fst entry) auth_items with
                                  | Some value_auth =>
                                      holds (match_item authorization_context (snd entry)
                                               value_auth mode)
                                  | None => false
                                  end)
                               role_items)).
  { rewrite match_item_unfold. cbn [bound_context].
    rewrite (plain_key_loop_counts mode auth_items role_items Hplain Hcalm 0).
    cbn [finish Nat.add]. now rewrite filter_all_length. }
  split; [exact Hall|].
  intros k v Hin Hmissing. rewrite Hall. f_equal.
  apply Bool.not_true_is_false. intros Hforall.
  rewrite forallb_forall in Hforall. specialize (Hforall (k, v) Hin).
  cbn [fst] in Hforall. rewrite Hmissing in Hforall. discriminate.
Qed.

(** X8: the keys of the context that a rule mapping without regex keys does
    not name play no part, in any mode: two contexts that agree on the keys of
    the rule give the same result (the same exception included). *)
Theorem unnamed_context_keys_are_ignored (mode : string)
        (role_items auth_items auth_items' : list (string * value)) :
  (forall k v, In (k, v) role_items -> check_regex (VStr k) = None) ->
  (forall k v, In (k, v) role_items -> dict_get k auth_items' = dict_get k auth_items) ->
  match_item authorization_context (VDict role_items) (VDict auth_items') mode
  = match_item authorization_context (VDict role_items) (VDict auth_items) mode.
Proof.
  intros Hplain Hagree. rewrite !match_item_unfold. cbn [bound_context].
  f_equal. apply for_in_ext_in. intros [k v] counter Hin. cbn [fst snd].
  rewrite !match_key_step_plain by (apply (Hplain k v Hin)).
  now rewrite (Hagree k v Hin).
Qed.

(** X9: a rule value that is a scalar and no regex literal, against a context
    value that is a scalar other than [None], is compared with [==], in every
    mode; as in Python, [True] equals [1]. *)
Theorem scalar_match_is_equality (role_chunk auth_context : value) (mode : string) :
  is_scalar role_chunk = true ->
  check_regex role_chunk = None ->
  is_scalar auth_context = true ->
  auth_context <> VNull ->
  match_item authorization_context role_chunk auth_context mode
  = Ok (py_eq role_chunk auth_context).
Proof.
  intros Hrole Hplain Hauth Hnotnull. rewrite match_item_unfold.
  assert (Hbound : bound_context authorization_context auth_context = auth_context)
    by (destruct auth_context; try reflexivity; congruence).
  rewrite Hbound.
  assert (Hleaf : match_item_leaf role_chunk auth_context mode
                  = Ok (py_eq role_chunk auth_context)).
  { unfold match_item_leaf.
    assert (Hpre : preprocess_to_list role_chunk auth_context = Ok (role_chunk, auth_context))
      by (destruct role_chunk, auth_context; try discriminate; reflexivity).
    rewrite Hpre. cbn [bind fst snd]. rewrite Hplain. unfold match_item_tail.
    destruct (py_eq role_chunk auth_context); [reflexivity|].
    destruct role_chunk, auth_context; try discriminate; reflexivity. }
  destruct role_chunk; try discriminate; exact Hleaf.
Qed.

(** X10: a rule value that is a regex literal, against a context value that
    is a string, matches exactly when the pattern matches the string, in every
    mode; the text of the literal itself is never compared. *)
Theorem regex_literal_on_string (s t : string) (regex : Pattern) (mode : string) :
  check_regex (VStr s) = Some regex ->
  match_item authorization_context (VStr s) (VStr t) mode
  = Ok (re_match (pattern regex) t).
Proof.
  intros Hre. cbn [match_item bound_context]. unfold match_item_leaf.
  cbn [preprocess_to_list bind fst snd]. rewrite Hre. cbn [is_list for_in].
  cbn [Pattern_match return_if].
  destruct (re_match (pattern regex) t) eqn:Hmatch; [reflexivity|].
  unfold match_item_tail. cbn [py_eq as_number is_str].
  unfold process_lists. cbn [for_in]. unfold process_pair.
  rewrite Hre. cbn [Pattern_match bind]. rewrite Hmatch.
  cbn [List.length Nat.eqb andb].
  destruct (String.eqb mode (function_name 0)); [reflexivity|].
  destruct (String.eqb mode (function_name 1)); reflexivity.
Qed.

(** X11: a rule key that is a regex literal whose pattern matches the key
    text itself is counted twice against a context that has this very key:
    the rule mapping with that one key fails although its value matches. *)
Theorem regex_key_present_verbatim_counts_twice (k : string) (regex : Pattern)
        (V c : value) (mode : string) :
  check_regex (VStr k) = Some regex ->
  re_match (pattern regex) k = true ->
  match_item authorization_context V c mode = Ok true ->
  match_item authorization_context (VDict [(k, V)]) (VDict [(k, c)]) mode = Ok false.
Proof.
  intros Hre Hself Hvalue. cbn [match_item bound_context for_in]. rewrite Hre, Hself.
  cbn [dict_get]. rewrite String.eqb_refl, Hvalue. reflexivity.
Qed.

(** X12: [None] in the context stands for the whole authorization context.
    When that is a mapping, a rule value [None] does not match a context
    value [None], and any rule fragment is matched against a context value
    [None] as it is against the authorization context. *)
Theorem null_stands_for_the_root (role_chunk : value) (mode : string) :
  is_dict authorization_context = true ->
  match_item authorization_context VNull VNull mode = Ok false
  /\ match_item authorization_context role_chunk VNull mode
     = match_item authorization_context role_chunk authorization_context mode.
Proof.
  intros Hroot. destruct authorization_context as [| | | | |d] eqn:Hctx; try discriminate.
  split; [reflexivity|].
  rewrite <- Hctx. rewrite !match_item_unfold. rewrite Hctx. reflexivity.
Qed.

(** X13: the empty rule mapping matches every context, in every mode, unless
    the context is a list that cannot be sorted. *)
Theorem empty_mapping_matches (auth_context : value) (mode : string) :
  (forall l, bound_context authorization_context auth_context = VList l ->
             raises (sorted l) = false) ->
  match_item authorization_context (VDict []) auth_context mode = Ok true.
Proof.
  intros Hsortable. rewrite match_item_unfold.
  destruct (bound_context authorization_context auth_context) as [| | | |l|d] eqn:Hbound;
    try reflexivity.
  specialize (Hsortable l eq_refl). unfold match_item_leaf. cbn [preprocess_to_list bind].
  destruct (sorted l) as [l'|e]; [reflexivity|discriminate].
Qed.
End MappingMatch.

(** The instance of [mapping_match_is_conjunctive] for the rule mapping
    [{"user": "ann"}] and a context with the keys [user] and [office]. *)
Lemma mapping_match_is_conjunctive_witness :
  match_item (engine := py_re) (VDict []) (VDict [("user", VStr "ann")])
    (VDict [("user", VStr "ann"); ("office", VStr "4")]) "MATCH"
  = Ok (forallb (fun entry =>
                   match dict_get (fst entry) [("user", VStr "ann"); ("office", VStr "4")] with
                   | Some value_auth =>
                       holds (match_item (engine := py_re) (VDict []) (snd entry)
                                value_auth "MATCH")
                   | None => false
                   end)
                [("user", VStr "ann")])
  /\ (forall k v, In (k, v) [("user", VStr "ann")] ->
        dict_get k [("user", VStr "ann"); ("office", VStr "4")] = None ->
        match_item (engine := py_re) (VDict []) (VDict [("user", VStr "ann")])
          (VDict [("user", VStr "ann"); ("office", VStr "4")]) "MATCH"
        = Ok false).
Proof.
  apply (mapping_match_is_conjunctive (engine := py_re) (VDict []) "MATCH"
           [("user", VStr "ann")] [("user", VStr "ann"); ("office", VStr "4")]).
  - intros k v [H|[]]. injection H as <- <-. reflexivity.
  - intros k v value_auth [H|[]] Hget. injection H as <- <-.
    injection Hget as <-. reflexivity.
Defined.

(** The instance of [unnamed_context_keys_are_ignored] for the same rule
    mapping, the context with and without the key [office]. *)
Lemma unnamed_context_keys_are_ignored_witness :
  match_item (engine := py_re) (VDict []) (VDict [("user", VStr "ann")])
    (VDict [("user", VStr "ann"); ("office", VStr "4")]) "MATCH$"
  = match_item (engine := py_re) (VDict []) (VDict [("user", VStr "ann")])
      (VDict [("user", VStr "ann")]) "MATCH$".
Proof.
  apply (unnamed_context_keys_are_ignored (engine := py_re) (VDict []) "MATCH$"
           [("user", VStr "ann")] [("user", VStr "ann")]
           [("user", VStr "ann"); ("office", VStr "4")]).
  - intros k v [H|[]]. injection H as <- <-. reflexivity.
  - intros k v [H|[]]. injection H as <- <-. reflexivity.
Defined.

(** The instance of [scalar_match_is_equality] for the rule value [1] and
    the context value [true], which Python holds equal. *)
Lemma scalar_match_is_equality_witness :
  match_item (engine := py_re) (VDict []) (VNum 1) (VBool true) "MATCH"
  = Ok (py_eq (VNum 1) (VBool true)).
Proof.
  apply (scalar_match_is_equality (engine := py_re) (VDict []) (VNum 1) (VBool true) "MATCH").
  - reflexivity.
  - reflexivity.
  - reflexivity.
  - discriminate.
Defined.

(** The instance of [regex_literal_on_string] for the regex literal
    [r'a.*'X], whose pattern is [a.*], and the string [abc]. *)
Lemma regex_literal_on_string_witness :
  match_item (engine := py_re) (VDict []) (VStr "r'a.*'X") (VStr "abc") "MATCH"
  = Ok (re_match (ReEngine := py_re) (pattern {| pattern := "a.*" |}) "abc").
Proof.
  apply (regex_literal_on_string (engine := py_re) (VDict []) "r'a.*'X" "abc"
           {| pattern := "a.*" |} "MATCH").
  reflexivity.
Defined.

(** The instance of [regex_key_present_verbatim_counts_twice] for the key
    [r'.*'X], which its own pattern [.*] matches. *)
Lemma regex_key_present_verbatim_counts_twice_witness :
  match_item (engine := py_re) (VDict []) (VDict [("r'.*'X", VStr "x")])
    (VDict [("r'.*'X", VStr "x")]) "MATCH"
  = Ok false.
Proof.
  apply (regex_key_present_verbatim_counts_twice (engine := py_re) (VDict []) "r'.*'X"
           {| pattern := ".*" |} (VStr "x") (VStr "x") "MATCH").
  - reflexivity.
  - reflexivity.
  - reflexivity.
Defined.

(** The instance of [null_stands_for_the_root] for the authorization context
    [{"user": "ann"}] and the rule mapping [{"user": "ann"}]. *)
Lemma null_stands_for_the_root_witness :
  match_item (engine := py_re) (VDict [("user", VStr "ann")]) VNull VNull "MATCH" = Ok false
  /\ match_item (engine := py_re) (VDict [("user", VStr "ann")])
       (VDict [("user", VStr "ann")]) VNull "MATCH"
     = match_item (engine := py_re) (VDict [("user", VStr "ann")])
         (VDict [("user", VStr "ann")]) (VDict [("user", VStr "ann")]) "MATCH".
Proof.
  apply (null_stands_for_the_root (engine := py_re) (VDict [("user", VStr "ann")])
           (VDict [("user", VStr "ann")]) "MATCH").
  reflexivity.
Defined.

(** The instance of [empty_mapping_matches] for the context value [x]. *)
Lemma empty_mapping_matches_witness :
  match_item (engine := py_re) (VDict []) (VDict []) (VStr "x") "MATCH$" = Ok true.
Proof.
  apply (empty_mapping_matches (engine := py_re) (VDict []) (VStr "x") "MATCH$").
  intros l H. discriminate H.
Defined.

(** ** The evaluator on operands and contexts of other shapes *)

Section OtherShapes.
Context {engine : ReEngine}.
Variable authorization_context : value.

(** X14: a logical operator whose operand is a scalar evaluates no operand
    and compares the count zero with the length of the operand.  With a
    string operand [AND] is true exactly when the string is empty, [NOT]
    exactly when it is not, and [OR] is false; with [None], a boolean or a
    number [AND] and [NOT] raise [TypeError] and [OR] is false. *)
Theorem operators_on_scalar_operands (s : string) (v : value) :
  check_rule authorization_context (VDict [("AND", VStr s)])
  = Ok (Nat.eqb 0 (String.length s))
  /\ check_rule authorization_context (VDict [("OR", VStr s)]) = Ok false
  /\ check_rule authorization_context (VDict [("NOT", VStr s)])
     = Ok (negb (Nat.eqb 0 (String.length s)))
  /\ (is_scalar v = true -> is_str v = false ->
      check_rule authorization_context (VDict [("AND", v)]) = Raise TypeError
      /\ check_rule authorization_context (VDict [("OR", v)]) = Ok false
      /\ check_rule authorization_context (VDict [("NOT", v)]) = Raise TypeError).
Proof.
  split; [|split; [|split]].
  - cbn. now destruct (String.length s).
  - reflexivity.
  - cbn. now destruct (String.length s).
  - intros Hscalar Hstr. destruct v; try discriminate; repeat split; reflexivity.
Qed.

(** X15: [FIND] is [MATCH] and more.  [find_item] maps the modes [FIND] and
    [FIND$] to [MATCH] and [MATCH$]; it returns true whenever [match_item]
    does on the same context, so a rule [{"FIND": R}] holds whenever
    [{"MATCH": R}] does, and [{"FIND$": R}] whenever [{"MATCH$": R}] does. *)
Theorem find_extends_match (role_chunk : value) :
  (forall auth_context mode,
      match_item authorization_context role_chunk auth_context (set_mode mode) = Ok true ->
      find_item authorization_context role_chunk auth_context mode = Ok true)
  /\ (forall auth_context,
        find_item authorization_context role_chunk auth_context "FIND"
        = find_item authorization_context role_chunk auth_context "MATCH"
        /\ find_item authorization_context role_chunk auth_context "FIND$"
           = find_item authorization_context role_chunk auth_context "MATCH$")
  /\ (check_rule authorization_context (VDict [("MATCH", role_chunk)]) = Ok true ->
      check_rule authorization_context (VDict [("FIND", role_chunk)]) = Ok true)
  /\ (check_rule authorization_context (VDict [("MATCH$", role_chunk)]) = Ok true ->
      check_rule authorization_context (VDict [("FIND$", role_chunk)]) = Ok true).
Proof.
  assert (Hfind : forall auth_context mode,
             match_item authorization_context role_chunk auth_context (set_mode mode)
             = Ok true ->
             find_item authorization_context role_chunk auth_context mode = Ok true).
  { intros auth_context mode Hmatch. unfold find_item.
    rewrite find_item_in_unfold, match_item_bound, Hmatch. reflexivity. }
  split; [exact Hfind|]. split.
  - intros auth_context. unfold find_item. split.
    + now rewrite <- (find_item_in_set_mode authorization_context role_chunk _ "FIND").
    + now rewrite <- (find_item_in_set_mode authorization_context role_chunk _ "FIND$").
  - split.
    + rewrite !check_rule_single. unfold rule_key_step.
      cbn [str_in existsb _logical_operators _functions function_name nth
           String.eqb Ascii.eqb Bool.eqb orb andb].
      destruct (match_item authorization_context role_chunk VNull "MATCH")
        as [[|]|e] eqn:Hmatch; try discriminate.
      intros _. now rewrite (Hfind VNull "FIND" Hmatch).
    + rewrite !check_rule_single. unfold rule_key_step.
      cbn [str_in existsb _logical_operators _functions function_name nth
           String.eqb Ascii.eqb Bool.eqb orb andb].
      destruct (match_item authorization_context role_chunk VNull "MATCH$")
        as [[|]|e] eqn:Hmatch; try discriminate.
      intros _. now rewrite (Hfind VNull "FIND$" Hmatch).
Qed.

(** X16: what is no mapping has no [items].  [check_rule] raises
    [AttributeError] on a rule that is no mapping, and [find_item] on a
    context that is no mapping returns true if [match_item] does and raises
    [AttributeError] if [match_item] returns false. *)
Theorem mappings_are_required (rule role_chunk auth_context : value) (mode : string) :
  (is_dict rule = false -> check_rule authorization_context rule = Raise AttributeError)
  /\ (is_dict (bound_context authorization_context auth_context) = false ->
      find_item authorization_context role_chunk auth_context mode
      = match match_item authorization_context role_chunk auth_context (set_mode mode) with
        | Ok true => Ok true
        | Ok false => Raise AttributeError
        | Raise e => Raise e
        end).
Proof.
  split.
  - intros Hrule. destruct rule; try discriminate; reflexivity.
  - intros Hcontext. unfold find_item.
    rewrite search_outside_mapping by exact Hcontext. rewrite match_item_bound.
    destruct (match_item authorization_context role_chunk auth_context (set_mode mode))
      as [[|]|e]; reflexivity.
Qed.

(** X17: the list-matching step succeeds in the modes [MATCH] and [MATCH$]
    only: with any other mode string it returns false or raises. *)
Theorem process_lists_needs_a_mode (role_chunk auth_context : list value) (mode : string) :
  mode <> "MATCH" ->
  mode <> "MATCH$" ->
  holds (process_lists role_chunk auth_context mode) = false.
Proof.
  intros Hmatch Hstrict. unfold process_lists.
  destruct (for_in _ auth_context 0) as [c|r|e] eqn:Hloop; try reflexivity.
  exfalso. revert Hloop. apply for_in_no_return. intros item c r'.
  apply for_in_no_return. intros v c' r''. unfold process_pair.
  destruct (match check_regex v with
            | Some regex =>
                matched <- Pattern_match regex item ;;
                Ok (if matched then c' + 1 else c')
            | None => Ok (if py_eq item v then c' + 1 else c')
            end); [|discriminate].
  cbn [function_name nth _functions].
  destruct (String.eqb_spec mode "MATCH"); [contradiction|].
  destruct (String.eqb_spec mode "MATCH$"); [contradiction|discriminate].
Qed.
End OtherShapes.

(** The instance of [operators_on_scalar_operands] for the empty string and
    the number [3]. *)
Lemma operators_on_scalar_operands_witness :
  check_rule (engine := py_re) (VDict []) (VDict [("AND", VStr EmptyString)]) = Ok true
  /\ check_rule (engine := py_re) (VDict []) (VDict [("NOT", VStr EmptyString)]) = Ok false
  /\ check_rule (engine := py_re) (VDict []) (VDict [("AND", VNum 3)]) = Raise TypeError
  /\ check_rule (engine := py_re) (VDict []) (VDict [("OR", VNum 3)]) = Ok false
  /\ check_rule (engine := py_re) (VDict []) (VDict [("NOT", VNum 3)]) = Raise TypeError.
Proof.
  destruct (operators_on_scalar_operands (engine := py_re) (VDict []) EmptyString (VNum 3))
    as (Hand & _ & Hnot & Hnumber).
  destruct (Hnumber eq_refl eq_refl) as (H1 & H2 & H3).
  repeat split; assumption.
Defined.

(** The instance of [find_extends_match] for the empty rule mapping, which
    matches the empty authorization context. *)
Lemma find_extends_match_witness :
  find_item (engine := py_re) (VDict []) (VDict []) VNull "FIND" = Ok true
  /\ check_rule (engine := py_re) (VDict []) (VDict [("FIND", VDict [])]) = Ok true
  /\ check_rule (engine := py_re) (VDict []) (VDict [("FIND$", VDict [])]) = Ok true.
Proof.
  destruct (find_extends_match (engine := py_re) (VDict []) (VDict []))
    as (Hfind & _ & Hrule & Hstrict).
  split; [exact (Hfind VNull "FIND" eq_refl)|].
  split; [exact (Hrule eq_refl) | exact (Hstrict eq_refl)].
Defined.

(** The instance of [mappings_are_required] for a rule that is a list and a
    search in the string [x]. *)
Lemma mappings_are_required_witness :
  check_rule (engine := py_re) (VDict []) (VList []) = Raise AttributeError
  /\ find_item (engine := py_re) (VDict []) (VStr "y") (VStr "x") "FIND"
     = Raise AttributeError.
Proof.
  destruct (mappings_are_required (engine := py_re) (VDict []) (VList []) (VStr "y")
              (VStr "x") "FIND") as (Hrule & Hfind).
  split; [exact (Hrule eq_refl) | exact (Hfind eq_refl)].
Defined.

(** The instance of [process_lists_needs_a_mode] for equal lists and the
    mode [FIND]. *)
Lemma process_lists_needs_a_mode_witness :
  holds (process_lists (engine := py_re) [VStr "x"] [VStr "x"] "FIND") = false.
Proof.
  apply (process_lists_needs_a_mode (engine := py_re) [VStr "x"] [VStr "x"] "FIND");
    discriminate.
Defined.

(** ** Role resolution *)

Section Resolution.
Context {engine : ReEngine}.
Variable get_all_policies_from_role : Z -> list Policy.

Lemma user_roles_of_selects (h : heap) (self : Checker) (roles : list nat)
      (objects : list Role.t) :
  Forall2 (fun address role => nth_error h address = Some role) roles objects ->
  Forall (fun role =>
            raises (check_rule (self_authorization_context self) (Role.rule role)) = false)
         objects ->
  user_roles_of h self roles
  = Ok (map role_identity (filter (granted (self_authorization_context self)) objects)).
Proof.
  induction 1 as [|address role roles objects Haddress _ IH]; intros Hcalm;
    cbn [user_roles_of filter map]; [reflexivity|].
  inversion Hcalm as [|? ? Hrole Hrest]; subst.
  rewrite Haddress, (IH Hrest). unfold granted.
  destruct (check_rule (self_authorization_context self) (Role.rule role)) as [[|]|e];
    try discriminate; reflexivity.
Qed.

(** X18: when no rule raises, [get_user_roles] returns the pairs (id, name)
    of exactly the roles of [roles_list] whose rule holds, in the order of
    [roles_list] (a role listed twice is returned twice). *)
Theorem get_user_roles_selects (h : heap) (self : Checker) (objects : list Role.t) :
  Forall2 (fun address role => nth_error h address = Some role)
          (self_roles_list self) objects ->
  Forall (fun role =>
            raises (check_rule (self_authorization_context self) (Role.rule role)) = false)
         objects ->
  get_user_roles h self
  = Ok (map role_identity (filter (granted (self_authorization_context self)) objects)).
Proof. apply user_roles_of_selects. Qed.

Lemma user_roles_of_raises (h : heap) (self : Checker) (roles : list nat)
      (objects : list Role.t) :
  Forall2 (fun address role => nth_error h address = Some role) roles objects ->
  Exists (fun role =>
            raises (check_rule (self_authorization_context self) (Role.rule role)) = true)
         objects ->
  raises (user_roles_of h self roles) = true.
Proof.
  induction 1 as [|address role roles objects Haddress _ IH]; intros Hbad;
    inversion Hbad as [? ? Hhere|? ? Hlater]; subst; cbn [user_roles_of];
    rewrite Haddress.
  - destruct (check_rule (self_authorization_context self) (Role.rule role));
      [discriminate | reflexivity].
  - destruct (check_rule (self_authorization_context self) (Role.rule role)) as [b|e];
      cbn [bind]; [|reflexivity].
    specialize (IH Hlater). destruct (user_roles_of h self roles); [discriminate|reflexivity].
Qed.

(** X19: one role whose rule makes [check_rule] raise makes [get_user_roles]
    and [run] raise, whatever the rules of the other roles are: no role is
    resolved. *)
Theorem one_raising_rule_blocks_resolution (h : heap) (self : Checker)
        (objects : list Role.t) :
  Forall2 (fun address role => nth_error h address = Some role)
          (self_roles_list self) objects ->
  Exists (fun role =>
            raises (check_rule (self_authorization_context self) (Role.rule role)) = true)
         objects ->
  raises (get_user_roles h self) = true
  /\ raises (run get_all_policies_from_role h self) = true.
Proof.
  intros Hobjects Hbad.
  pose proof (user_roles_of_raises h self _ objects Hobjects Hbad) as Hraises.
  unfold run, get_user_roles in *.
  destruct (user_roles_of h self (self_roles_list self)); [discriminate|].
  split; reflexivity.
Qed.
End Resolution.

(** ** The constructor: where the roles come from and how it fails *)

Lemma heap_set_length (h : heap) (address : nat) (role : Role.t) :
  List.length (heap_set h address role) = List.length h.
Proof.
  revert address. induction h as [|r h IH]; intros [|address]; simpl; auto.
Qed.

Section ConstructorFailures.
Variable json_parse : string -> option value.
Variable rm_get_roles : list Role.t.

Lemma parse_rules_app (h : heap) (roles more : list nat) :
  parse_rules json_parse h (roles ++ more)
  = match parse_rules json_parse h roles with
    | (h', Ok _) => parse_rules json_parse h' more
    | (h', Raise e) => (h', Raise e)
    end.
Proof.
  revert h. induction roles as [|address roles IH]; intros h; cbn [app parse_rules].
  - reflexivity.
  - destruct (parse_rule json_parse h address) as [h' [[]|e]]; [apply IH | reflexivity].
Qed.

(** The loop stops at the first role whose rule cannot be loaded, with the
    roles before it overwritten. *)
Lemma parse_rules_stops (h : heap) (before after : list nat) (address : nat)
      (role : Role.t) (e : exn) (h' : heap) :
  parse_rules json_parse h before = (h', Ok tt) ->
  nth_error h' address = Some role ->
  json_loads json_parse (Role.rule role) = Raise e ->
  parse_rules json_parse h (before ++ address :: after) = (h', Raise e).
Proof.
  intros Hbefore Hrole Hload. rewrite parse_rules_app, Hbefore. cbn [parse_rules].
  unfold parse_rule. now rewrite Hrole, Hload.
Qed.

(** X20: the constructor is not atomic.  If the rule of a role of the list
    cannot be loaded (its text is no JSON, or it is no string), the
    constructor raises the exception of [json.loads], and the roles listed
    before it (distinct, with rule texts that parse to values that are no
    strings) keep their rules overwritten with the parsed values; no other
    object changes. *)
Theorem constructor_fails_half_way (h : heap) (auth_context : string) (context : value)
        (before after : list nat) (address : nat) (role : Role.t) (e : exn) :
  json_parse auth_context = Some context ->
  NoDup before ->
  (forall a, In a before ->
     exists v, parsed_rule json_parse h a = Some v /\ is_str v = false) ->
  ~ In address before ->
  nth_error h address = Some role ->
  json_loads json_parse (Role.rule role) = Raise e ->
  exists h',
    __init__ json_parse rm_get_roles h auth_context (RoleList (before ++ address :: after))
    = (h', Raise e)
    /\ (forall a, In a before ->
          exists old v,
            nth_error h a = Some old
            /\ parsed_rule json_parse h a = Some v
            /\ nth_error h' a = Some (Role.set_rule old v))
    /\ (forall other, ~ In other before -> nth_error h' other = nth_error h other).
Proof.
  intros Hcontext Hnodup Hparse Hfresh Hrole Hload.
  destruct (parse_rules_ok json_parse before h Hnodup Hparse) as (h' & Hrun & Hin & Hout).
  exists h'. split; [|split; [|exact Hout]].
  - unfold __init__, json_loads. rewrite Hcontext.
    rewrite (parse_rules_stops h before after address role e h' Hrun); [reflexivity| |exact Hload].
    now rewrite (Hout address Hfresh).
  - intros a Ha. destruct (Hin a Ha) as (old & v & H1 & H2 & _ & H4). now exists old, v.
Qed.

(** X21: a role object listed twice makes the constructor raise [TypeError]:
    at the second visit its rule is the parsed value, which is no string.
    The roles listed before the repetition have their rules overwritten. *)
Theorem constructor_rejects_repeated_role (h : heap) (auth_context : string)
        (context : value) (before after : list nat) (address : nat) :
  json_parse auth_context = Some context ->
  NoDup before ->
  (forall a, In a before ->
     exists v, parsed_rule json_parse h a = Some v /\ is_str v = false) ->
  In address before ->
  exists h',
    __init__ json_parse rm_get_roles h auth_context (RoleList (before ++ address :: after))
    = (h', Raise TypeError)
    /\ (forall a, In a before ->
          exists old v,
            nth_error h a = Some old
            /\ parsed_rule json_parse h a = Some v
            /\ nth_error h' a = Some (Role.set_rule old v))
    /\ (forall other, ~ In other before -> nth_error h' other = nth_error h other).
Proof.
  intros Hcontext Hnodup Hparse Hrepeated.
  destruct (parse_rules_ok json_parse before h Hnodup Hparse) as (h' & Hrun & Hin & Hout).
  exists h'. split; [|split; [|exact Hout]].
  - destruct (Hin address Hrepeated) as (old & v & _ & _ & Hstr & Hnew).
    unfold __init__, json_loads. rewrite Hcontext.
    rewrite (parse_rules_stops h before after address (Role.set_rule old v) TypeError h' Hrun);
      [reflexivity | exact Hnew |].
    cbn [Role.set_rule Role.rule]. unfold json_loads.
    destruct v; try discriminate; reflexivity.
  - intros a Ha. destruct (Hin a Ha) as (old & v & H1 & H2 & _ & H4). now exists old, v.
Qed.

(** X22: without a [role] argument the constructor takes every role of the
    store: when their rule texts parse to values that are no strings, it
    succeeds, its [roles_list] are the store's role objects, placed behind the
    caller's, each with its rule parsed, and no object of the caller changes. *)
Theorem constructor_takes_all_roles (h : heap) (auth_context : string) (context : value) :
  json_parse auth_context = Some context ->
  Forall (fun role =>
            exists text v,
              Role.rule role = VStr text /\ json_parse text = Some v /\ is_str v = false)
         rm_get_roles ->
  exists h',
    __init__ json_parse rm_get_roles h auth_context NoRole
    = (h', Ok {| self_authorization_context := context;
                 self_roles_list := seq (List.length h) (List.length rm_get_roles) |})
    /\ (forall a, a < List.length h -> nth_error h' a = nth_error h a)
    /\ (forall i role,
          nth_error rm_get_roles i = Some role ->
          exists text v,
            Role.rule role = VStr text
            /\ json_parse text = Some v
            /\ nth_error h' (List.length h + i) = Some (Role.set_rule role v)).
Proof.
  intros Hcontext Hstore.
  destruct (parse_rules_ok json_parse (seq (List.length h) (List.length rm_get_roles))
              (h ++ rm_get_roles)) as (h' & Hrun & Hin & Hout).
  { apply seq_NoDup. }
  { intros a Ha. apply in_seq in Ha. unfold parsed_rule.
    rewrite nth_error_app2 by lia.
    destruct (nth_error rm_get_roles (a - List.length h)) as [role|] eqn:Hrole.
    - rewrite Forall_forall in Hstore.
      destruct (Hstore role (nth_error_In _ _ Hrole)) as (text & v & -> & Hv & Hstr).
      now exists v.
    - apply nth_error_None in Hrole. lia. }
  exists h'. split; [|split].
  - unfold __init__, json_loads. rewrite Hcontext, Hrun. reflexivity.
  - intros a Ha. rewrite Hout by (rewrite in_seq; lia). now apply nth_error_app1.
  - intros i role Hrole.
    assert (Hi : i < List.length rm_get_roles) by (apply nth_error_Some; congruence).
    destruct (Hin (List.length h + i)) as (old & v & Hold & Hparsed & _ & Hnew).
    { apply in_seq. lia. }
    rewrite nth_error_app2 in Hold by lia.
    replace (List.length h + i - List.length h) with i in Hold by lia.
    assert (old = role) by congruence. subst old.
    unfold parsed_rule in Hparsed. rewrite nth_error_app2 in Hparsed by lia.
    replace (List.length h + i - List.length h) with i in Hparsed by lia.
    rewrite Hrole in Hparsed.
    destruct (Role.rule role) as [| | |text| |] eqn:Hrule; try discriminate.
    now exists text, v.
Qed.
End ConstructorFailures.

(** The instance of [get_user_roles_selects] for two roles whose rule matches
    every mapping. *)
Lemma get_user_roles_selects_witness :
  get_user_roles (engine := py_re) two_roles both_roles_checker
  = Ok (map role_identity
            (filter (granted (H := py_re) (self_authorization_context both_roles_checker))
                    two_roles)).
Proof.
  apply (get_user_roles_selects (engine := py_re) two_roles both_roles_checker two_roles).
  - repeat constructor.
  - repeat constructor.
Defined.

(** The instance of [one_raising_rule_blocks_resolution] for a role whose
    rule is a list, behind a role whose rule holds. *)
Lemma one_raising_rule_blocks_resolution_witness :
  raises (get_user_roles (engine := py_re)
            [ {| Role.id := 1; Role.name := "administrator"; Role.rule := match_anything |};
              {| Role.id := 2; Role.name := "operator"; Role.rule := VList [] |} ]
            both_roles_checker) = true
  /\ raises (run (engine := py_re) (fun _ => [read_agents])
               [ {| Role.id := 1; Role.name := "administrator"; Role.rule := match_anything |};
                 {| Role.id := 2; Role.name := "operator"; Role.rule := VList [] |} ]
               both_roles_checker) = true.
Proof.
  apply (one_raising_rule_blocks_resolution (engine := py_re) (fun _ => [read_agents])
           [ {| Role.id := 1; Role.name := "administrator"; Role.rule := match_anything |};
             {| Role.id := 2; Role.name := "operator"; Role.rule := VList [] |} ]
           both_roles_checker
           [ {| Role.id := 1; Role.name := "administrator"; Role.rule := match_anything |};
             {| Role.id := 2; Role.name := "operator"; Role.rule := VList [] |} ]).
  - repeat constructor.
  - apply Exists_cons_tl, Exists_cons_hd. reflexivity.
Defined.

(** The instance of [constructor_fails_half_way] for a list of two roles, the
    rule text of the second being no JSON document. *)
Lemma constructor_fails_half_way_witness :
  exists h',
    __init__ json_literals []
      [ {| Role.id := 1; Role.name := "administrator"; Role.rule := VStr "{}" |};
        {| Role.id := 2; Role.name := "operator"; Role.rule := VStr "{" |} ]
      "{}" (RoleList ([0] ++ 1 :: []))
    = (h', Raise JSONDecodeError)
    /\ (forall a, In a [0] ->
          exists old v,
            nth_error
              [ {| Role.id := 1; Role.name := "administrator"; Role.rule := VStr "{}" |};
                {| Role.id := 2; Role.name := "operator"; Role.rule := VStr "{" |} ] a
            = Some old
            /\ parsed_rule json_literals
                 [ {| Role.id := 1; Role.name := "administrator"; Role.rule := VStr "{}" |};
                   {| Role.id := 2; Role.name := "operator"; Role.rule := VStr "{" |} ] a
               = Some v
            /\ nth_error h' a = Some (Role.set_rule old v))
    /\ (forall other, ~ In other [0] ->
          nth_error h' other
          = nth_error
              [ {| Role.id := 1; Role.name := "administrator"; Role.rule := VStr "{}" |};
                {| Role.id := 2; Role.name := "operator"; Role.rule := VStr "{" |} ] other).
Proof.
  apply (constructor_fails_half_way json_literals []
           [ {| Role.id := 1; Role.name := "administrator"; Role.rule := VStr "{}" |};
             {| Role.id := 2; Role.name := "operator"; Role.rule := VStr "{" |} ]
           "{}" (VDict []) [0] [] 1
           {| Role.id := 2; Role.name := "operator"; Role.rule := VStr "{" |}
           JSONDecodeError).
  - reflexivity.
  - constructor; [simpl; tauto | constructor].
  - intros a [<-|[]]. exists (VDict []). split; reflexivity.
  - simpl. intros [H|[]]. discriminate H.
  - reflexivity.
  - reflexivity.
Defined.

(** The instance of [constructor_rejects_repeated_role] for the list that
    names the one role twice. *)
Lemma constructor_rejects_repeated_role_witness :
  exists h',
    __init__ json_literals [] one_text_role "{}" (RoleList ([0] ++ 0 :: []))
    = (h', Raise TypeError)
    /\ (forall a, In a [0] ->
          exists old v,
            nth_error one_text_role a = Some old
            /\ parsed_rule json_literals one_text_role a = Some v
            /\ nth_error h' a = Some (Role.set_rule old v))
    /\ (forall other, ~ In other [0] -> nth_error h' other = nth_error one_text_role other).
Proof.
  apply (constructor_rejects_repeated_role json_literals [] one_text_role "{}" (VDict [])
           [0] [] 0).
  - reflexivity.
  - constructor; [simpl; tauto | constructor].
  - intros a [<-|[]]. exists (VDict []). split; reflexivity.
  - left. reflexivity.
Defined.

(** The instance of [constructor_takes_all_roles] for a store that holds one
    role whose rule text is [{}], the caller holding no role object. *)
Lemma constructor_takes_all_roles_witness :
  exists h',
    __init__ json_literals one_text_role [] "{}" NoRole
    = (h', Ok {| self_authorization_context := VDict [];
                 self_roles_list := seq (List.length (@nil Role.t))
                                        (List.length one_text_role) |})
    /\ (forall a, a < List.length (@nil Role.t) -> nth_error h' a = nth_error [] a)
    /\ (forall i role,
          nth_error one_text_role i = Some role ->
          exists text v,
            Role.rule role = VStr text
            /\ json_literals text = Some v
            /\ nth_error h' (List.length (@nil Role.t) + i) = Some (Role.set_rule role v)).
Proof.
  apply (constructor_takes_all_roles json_literals one_text_role [] "{}" (VDict [])).
  - reflexivity.
  - constructor; [|constructor]. exists "{}", (VDict []). repeat split.
Defined.

(** ** Lists of strings: sorting and order *)

Lemma string_ltb_lt (a b : string) :
  String.ltb a b = true <-> OrderedTypeEx.String_as_OT.lt a b.
Proof.
  rewrite <- OrderedTypeEx.String_as_OT.cmp_lt.
  unfold String.ltb, OrderedTypeEx.String_as_OT.cmp.
  destruct (String.compare a b); split; congruence.
Qed.

Lemma string_ltb_trans (a b c : string) :
  String.ltb a b = true -> String.ltb b c = true -> String.ltb a c = true.
Proof.
  rewrite !string_ltb_lt. apply OrderedTypeEx.String_as_OT.lt_trans.
Qed.

(** Two strings are equal or one is smaller. *)
Lemma string_le_cases (a b : string) :
  string_le a b -> a = b \/ String.ltb a b = true.
Proof.
  unfold string_le, String.ltb. rewrite (String.compare_antisym a b).
  destruct (String.compare b a) eqn:Hcmp; cbn; intros H; try discriminate.
  - left. symmetry. now apply String.compare_eq_iff.
  - now right.
Qed.

Lemma string_lt_le (a b : string) : String.ltb a b = true -> string_le a b.
Proof.
  unfold string_le, String.ltb. rewrite (String.compare_antisym b a).
  now destruct (String.compare a b).
Qed.

Lemma string_le_trans (a b c : string) : string_le a b -> string_le b c -> string_le a c.
Proof.
  intros Hab Hbc.
  destruct (string_le_cases a b Hab) as [->|Hlt]; [exact Hbc|].
  destruct (string_le_cases b c Hbc) as [<-|Hlt']; [exact Hab|].
  apply string_lt_le. now apply string_ltb_trans with b.
Qed.

Lemma string_le_antisym (a b : string) : string_le a b -> string_le b a -> a = b.
Proof.
  intros Hab Hba. destruct (string_le_cases a b Hab) as [Heq|Hlt]; [exact Heq|].
  unfold string_le in Hba. congruence.
Qed.

Lemma insert_string_perm (x : string) (acc : list string) :
  Permutation (x :: acc) (insert_string x acc).
Proof.
  induction acc as [|y rest IH]; cbn [insert_string]; [reflexivity|].
  destruct (String.ltb x y); [reflexivity|].
  rewrite perm_swap. now apply perm_skip.
Qed.

Lemma insert_string_sorted (x : string) (acc : list string) :
  StronglySorted string_le acc -> StronglySorted string_le (insert_string x acc).
Proof.
  induction 1 as [|y rest Hrest IH Hy]; cbn [insert_string].
  - constructor; constructor.
  - destruct (String.ltb x y) eqn:Hlt.
    + constructor; [now constructor|].
      constructor; [now apply string_lt_le|].
      eapply Forall_impl; [|exact Hy]. intros z Hz.
      apply string_le_trans with y; [now apply string_lt_le | exact Hz].
    + constructor; [exact IH|].
      apply (Permutation_Forall (insert_string_perm x rest)).
      constructor; [exact Hlt | exact Hy].
Qed.

Lemma fold_insert_perm (l acc : list string) :
  Permutation (l ++ acc) (fold_left (fun acc x => insert_string x acc) l acc).
Proof.
  revert acc. induction l as [|x l IH]; intros acc; cbn [fold_left app]; [reflexivity|].
  rewrite <- IH. rewrite <- (insert_string_perm x acc). apply Permutation_middle.
Qed.

Lemma fold_insert_sorted (l acc : list string) :
  StronglySorted string_le acc ->
  StronglySorted string_le (fold_left (fun acc x => insert_string x acc) l acc).
Proof.
  revert acc. induction l as [|x l IH]; intros acc Hacc; cbn [fold_left]; [exact Hacc|].
  apply IH. now apply insert_string_sorted.
Qed.

Lemma sort_strings_perm (l : list string) : Permutation l (sort_strings l).
Proof.
  unfold sort_strings. rewrite <- (fold_insert_perm l []). now rewrite app_nil_r.
Qed.

Lemma sort_strings_sorted (l : list string) : StronglySorted string_le (sort_strings l).
Proof. apply fold_insert_sorted. constructor. Qed.

(** A list of strings has one sorted arrangement. *)
Lemma sorted_strings_unique (l1 l2 : list string) :
  Permutation l1 l2 ->
  StronglySorted string_le l1 -> StronglySorted string_le l2 -> l1 = l2.
Proof.
  revert l2. induction l1 as [|a l1 IH]; intros l2 Hperm H1 H2.
  - apply Permutation_nil in Hperm. now subst.
  - destruct l2 as [|b l2]; [apply Permutation_sym, Permutation_nil in Hperm; discriminate|].
    apply StronglySorted_inv in H1 as [H1 Ha]. apply StronglySorted_inv in H2 as [H2 Hb].
    assert (Hab : a = b).
    { assert (Hain : In a (b :: l2)) by (apply (Permutation_in _ Hperm); now left).
      assert (Hbin : In b (a :: l1))
        by (apply (Permutation_in _ (Permutation_sym Hperm)); now left).
      rewrite Forall_forall in Ha, Hb.
      destruct Hain as [Heq|Hain]; [now symmetry|].
      destruct Hbin as [Heq|Hbin]; [exact Heq|].
      apply string_le_antisym; auto. }
    subst b. f_equal. apply IH; auto. now apply Permutation_cons_inv with a.
Qed.

Lemma sort_strings_canonical (l1 l2 : list string) :
  Permutation l1 l2 -> sort_strings l1 = sort_strings l2.
Proof.
  intros Hperm. apply sorted_strings_unique; try apply sort_strings_sorted.
  rewrite <- (sort_strings_perm l1), <- (sort_strings_perm l2). exact Hperm.
Qed.

(** [sorted] on a list of strings is this sort: it does not raise. *)
Lemma sorted_insert_strings (x : string) (acc : list string) :
  sorted_insert (VStr x) (map VStr acc) = Ok (map VStr (insert_string x acc)).
Proof.
  induction acc as [|y rest IH]; cbn [map sorted_insert insert_string py_lt bind];
    [reflexivity|].
  destruct (String.ltb x y); [reflexivity|]. now rewrite IH.
Qed.

Lemma sorted_from_strings (l acc : list string) :
  sorted_from (map VStr acc) (map VStr l)
  = Ok (map VStr (fold_left (fun acc x => insert_string x acc) l acc)).
Proof.
  revert acc. induction l as [|x l IH]; intros acc; cbn [map sorted_from fold_left];
    [reflexivity|].
  rewrite sorted_insert_strings. cbn [bind]. apply IH.
Qed.

Lemma sorted_strings (l : list string) :
  sorted (map VStr l) = Ok (map VStr (sort_strings l)).
Proof. exact (sorted_from_strings l []). Qed.

Lemma existsb_map_strings (f : value -> bool) (l : list string) :
  existsb f (map VStr l) = existsb (fun t => f (VStr t)) l.
Proof. induction l as [|t l IH]; cbn [map existsb]; [reflexivity | now rewrite IH]. Qed.

Lemma existsb_perm {A : Type} (f : A -> bool) (l l' : list A) :
  Permutation l l' -> existsb f l = existsb f l'.
Proof.
  intros Hperm. destruct (existsb f l') eqn:Hl'.
  - apply existsb_exists in Hl' as (x & Hx & Hfx). apply existsb_exists. exists x.
    split; [|exact Hfx]. now apply (Permutation_in _ (Permutation_sym Hperm)).
  - apply Bool.not_true_is_false. intros Hl.
    apply existsb_exists in Hl as (x & Hx & Hfx).
    assert (Hex : existsb f l' = true)
      by (apply existsb_exists; exists x; split; [now apply (Permutation_in _ Hperm)|exact Hfx]).
    congruence.
Qed.

Section StringLists.
Context {engine : ReEngine}.
Variable authorization_context : value.

(** X23: [preprocess_to_list] sorts the chunks that are lists and leaves the
    others alone.  On two lists of strings it never raises and returns, for
    each, the sorted arrangement of the same strings. *)
Theorem preprocess_to_list_sorts_strings (role_strings auth_strings : list string) :
  (exists role_sorted auth_sorted,
      preprocess_to_list (VList (map VStr role_strings)) (VList (map VStr auth_strings))
      = Ok (VList (map VStr role_sorted), VList (map VStr auth_sorted))
      /\ Permutation role_strings role_sorted
      /\ Permutation auth_strings auth_sorted
      /\ StronglySorted string_le role_sorted
      /\ StronglySorted string_le auth_sorted)
  /\ (forall role_chunk auth_chunk,
        is_list role_chunk = false -> is_list auth_chunk = false ->
        preprocess_to_list role_chunk auth_chunk = Ok (role_chunk, auth_chunk)).
Proof.
  split.
  - exists (sort_strings role_strings), (sort_strings auth_strings).
    unfold preprocess_to_list. rewrite !sorted_strings. cbn [bind].
    repeat split; auto using sort_strings_perm, sort_strings_sorted.
  - intros role_chunk auth_chunk Hrole Hauth.
    destruct role_chunk, auth_chunk; try discriminate; reflexivity.
Qed.

(** X24: matching two lists of strings does not depend on the order of
    either list, in any mode. *)
Theorem string_lists_match_in_any_order (role_strings role_strings' auth_strings
                                         auth_strings' : list string) (mode : string) :
  Permutation role_strings role_strings' ->
  Permutation auth_strings auth_strings' ->
  match_item authorization_context (VList (map VStr role_strings))
    (VList (map VStr auth_strings)) mode
  = match_item authorization_context (VList (map VStr role_strings'))
      (VList (map VStr auth_strings')) mode.
Proof.
  intros Hrole Hauth. rewrite !match_item_unfold. cbn [bound_context].
  unfold match_item_leaf, preprocess_to_list. rewrite !sorted_strings.
  now rewrite (sort_strings_canonical _ _ Hrole), (sort_strings_canonical _ _ Hauth).
Qed.

Lemma matching_pairs_nil (auth_context : list value) : matching_pairs [] auth_context = 0.
Proof.
  unfold matching_pairs. induction auth_context as [|x xs IH]; [reflexivity|].
  cbn [map]. change (list_sum (?a :: ?l)) with (a + list_sum l).
  rewrite IH. reflexivity.
Qed.

Lemma matching_pairs_single (v : value) (auth_context : list value) :
  matching_pairs [v] auth_context = List.length (filter (element_matches v) auth_context).
Proof. rewrite matching_pairs_cons, matching_pairs_nil. lia. Qed.

(** The list-matching step for one rule element against strings. *)
Lemma process_lists_single (s : string) (l : list string) :
  process_lists [VStr s] (map VStr l) "MATCH"
  = Ok (existsb (fun t => element_matches (VStr s) (VStr t)) l)
  /\ process_lists [VStr s] (map VStr l) "MATCH$"
     = Ok (Nat.eqb 1 (List.length l)
           && existsb (fun t => element_matches (VStr s) (VStr t)) l).
Proof.
  assert (Hsafe : forall value v, In value (map VStr l) -> In v [VStr s] -> safe_pair v value).
  { intros value v Hvalue _. right. apply in_map_iff in Hvalue as (t & <- & _). reflexivity. }
  rewrite (process_lists_permissive_count [VStr s] (map VStr l) Hsafe).
  rewrite (process_lists_strict_count [VStr s] (map VStr l) Hsafe).
  rewrite matching_pairs_single. cbn [List.length]. rewrite length_map.
  change (Nat.leb 1 ?n) with (Nat.ltb 0 n).
  rewrite filter_some_length, existsb_map_strings.
  cbn [Nat.ltb Nat.leb andb]. now rewrite Bool.andb_true_r.
Qed.

(** X25: a rule value that is a string and no regex literal, against a list
    of strings: under [MATCH] it matches exactly when it is an element of the
    list, under [MATCH$] exactly when the list is that one string. *)
Theorem string_in_list_of_strings (s : string) (l : list string) :
  check_regex (VStr s) = None ->
  match_item authorization_context (VStr s) (VList (map VStr l)) "MATCH"
  = Ok (existsb (String.eqb s) l)
  /\ match_item authorization_context (VStr s) (VList (map VStr l)) "MATCH$"
     = Ok (Nat.eqb 1 (List.length l) && existsb (String.eqb s) l).
Proof.
  intros Hplain.
  assert (Hexists : existsb (fun t => element_matches (VStr s) (VStr t)) (sort_strings l)
                    = existsb (String.eqb s) l).
  { rewrite <- (existsb_perm _ _ _ (sort_strings_perm l)).
    unfold element_matches. rewrite Hplain. cbn [py_eq].
    clear. induction l as [|t l IH]; cbn [existsb]; [reflexivity|].
    now rewrite IH, String.eqb_sym. }
  destruct (process_lists_single s (sort_strings l)) as (Hmatch & Hstrict).
  rewrite <- (Permutation_length (sort_strings_perm l)) in Hstrict.
  rewrite Hexists in Hmatch, Hstrict.
  split; cbn [match_item bound_context]; unfold match_item_leaf, preprocess_to_list;
    rewrite sorted_strings; cbn [bind fst snd];
    rewrite Hplain; unfold match_item_tail; cbn [py_eq as_number is_str];
    assumption.
Qed.

(** The loop that tries a regex on every string of a list. *)
Lemma regex_loop_on_strings (regex : Pattern) (l : list string) :
  for_in (fun context (s : unit) => return_if (Pattern_match regex context) s)
         (map VStr l) tt
  = if existsb (re_match (pattern regex)) l then Return true else Continue tt.
Proof.
  induction l as [|t l IH]; cbn [map for_in existsb Pattern_match return_if]; [reflexivity|].
  destruct (re_match (pattern regex) t); [reflexivity | exact IH].
Qed.

(** X26: a rule value that is a regex literal, against a list of strings,
    matches exactly when its pattern matches one of the strings, under [MATCH]
    and under [MATCH$] alike. *)
Theorem regex_literal_on_list_of_strings (s : string) (regex : Pattern) (l : list string) :
  check_regex (VStr s) = Some regex ->
  match_item authorization_context (VStr s) (VList (map VStr l)) "MATCH"
  = Ok (existsb (re_match (pattern regex)) l)
  /\ match_item authorization_context (VStr s) (VList (map VStr l)) "MATCH$"
     = Ok (existsb (re_match (pattern regex)) l).
Proof.
  intros Hre.
  assert (Hexists : existsb (re_match (pattern regex)) (sort_strings l)
                    = existsb (re_match (pattern regex)) l)
    by (symmetry; apply existsb_perm, sort_strings_perm).
  assert (Hpairs : existsb (fun t => element_matches (VStr s) (VStr t)) (sort_strings l)
                   = existsb (re_match (pattern regex)) l).
  { rewrite <- Hexists. unfold element_matches. now rewrite Hre. }
  destruct (process_lists_single s (sort_strings l)) as (Hmatch & Hstrict).
  rewrite Hpairs in Hmatch, Hstrict.
  split; cbn [match_item bound_context]; unfold match_item_leaf, preprocess_to_list;
    rewrite sorted_strings; cbn [bind fst snd];
    rewrite Hre; cbn [is_list]; rewrite regex_loop_on_strings, Hexists;
    destruct (existsb (re_match (pattern regex)) l) eqn:Hany; try reflexivity;
    unfold match_item_tail; cbn [py_eq as_number is_str].
  - exact Hmatch.
  - rewrite Hstrict. now rewrite Bool.andb_false_r.
Qed.
End StringLists.

(** The instance of [preprocess_to_list_sorts_strings] for two scalars, which
    pass unchanged. *)
Lemma preprocess_to_list_sorts_strings_witness :
  preprocess_to_list (VStr "b") (VNum 1) = Ok (VStr "b", VNum 1).
Proof.
  exact (proj2 (preprocess_to_list_sorts_strings [] []) (VStr "b") (VNum 1)
               eq_refl eq_refl).
Defined.

(** The instance of [string_lists_match_in_any_order] for the rule list
    [["b", "a"]] and the context list [["a", "b", "c"]]. *)
Lemma string_lists_match_in_any_order_witness :
  match_item (engine := py_re) (VDict []) (VList (map VStr ["b"; "a"]))
    (VList (map VStr ["a"; "b"; "c"])) "MATCH"
  = match_item (engine := py_re) (VDict []) (VList (map VStr ["a"; "b"]))
      (VList (map VStr ["c"; "a"; "b"])) "MATCH".
Proof.
  apply (string_lists_match_in_any_order (engine := py_re) (VDict []) ["b"; "a"] ["a"; "b"]
           ["a"; "b"; "c"] ["c"; "a"; "b"] "MATCH").
  - apply perm_swap.
  - symmetry. apply (Permutation_cons_append ["a"; "b"] "c").
Defined.

(** The instance of [string_in_list_of_strings] for the string [x] and the
    list [["y", "x"]]. *)
Lemma string_in_list_of_strings_witness :
  match_item (engine := py_re) (VDict []) (VStr "x") (VList (map VStr ["y"; "x"])) "MATCH"
  = Ok (existsb (String.eqb "x") ["y"; "x"])
  /\ match_item (engine := py_re) (VDict []) (VStr "x") (VList (map VStr ["y"; "x"])) "MATCH$"
     = Ok (Nat.eqb 1 (List.length ["y"; "x"]) && existsb (String.eqb "x") ["y"; "x"]).
Proof.
  apply (string_in_list_of_strings (engine := py_re) (VDict []) "x" ["y"; "x"]).
  reflexivity.
Defined.

(** The instance of [regex_literal_on_list_of_strings] for the regex literal
    [r'a.*'X] and the list [["b", "ab"]]. *)
Lemma regex_literal_on_list_of_strings_witness :
  match_item (engine := py_re) (VDict []) (VStr "r'a.*'X") (VList (map VStr ["b"; "ab"]))
    "MATCH"
  = Ok (existsb (re_match (ReEngine := py_re) (pattern {| pattern := "a.*" |})) ["b"; "ab"])
  /\ match_item (engine := py_re) (VDict []) (VStr "r'a.*'X")
       (VList (map VStr ["b"; "ab"])) "MATCH$"
     = Ok (existsb (re_match (ReEngine := py_re) (pattern {| pattern := "a.*" |}))
                   ["b"; "ab"]).
Proof.
  apply (regex_literal_on_list_of_strings (engine := py_re) (VDict []) "r'a.*'X"
           {| pattern := "a.*" |} ["b"; "ab"]).
  reflexivity.
Defined.

(** ** Lists that hold a mapping, and shapes that differ *)

Lemma py_lt_mapping_left (d : list (string * value)) (b : value) :
  py_lt (VDict d) b = Raise TypeError.
Proof. destruct b; reflexivity. Qed.

Lemma py_lt_mapping_right (a : value) (d : list (string * value)) :
  py_lt a (VDict d) = Raise TypeError.
Proof. destruct a as [| [|] | | | |]; reflexivity. Qed.

(** [<] raises nothing but [TypeError]. *)
Lemma py_lt_raises_TypeError (a : value) :
  forall other e, py_lt a other = Raise e -> e = TypeError.
Proof.
  induction a as [|flag|n|s|l IH|d _] using value_nested_ind; intros other e;
    try (destruct other; cbn; congruence).
  destruct other as [| | | |m|]; try (cbn; congruence).
  cbn [py_lt]. revert m.
  induction IH as [|x l Hx _ IHl]; intros [|y m]; try discriminate.
  destruct (py_eq x y); [apply IHl | apply Hx].
Qed.

Lemma sorted_insert_raises_TypeError (x : value) (acc : list value) (e : exn) :
  sorted_insert x acc = Raise e -> e = TypeError.
Proof.
  induction acc as [|y rest IH]; cbn [sorted_insert]; [discriminate|].
  destruct (py_lt x y) as [[|]|e'] eqn:Hlt; cbn [bind].
  - discriminate.
  - destruct (sorted_insert x rest); cbn [bind]; [discriminate|].
    intros H. injection H as <-. now apply IH.
  - intros H. injection H as <-. now apply py_lt_raises_TypeError in Hlt.
Qed.

Lemma sorted_raises_TypeError (l : list value) (e : exn) :
  sorted l = Raise e -> e = TypeError.
Proof.
  unfold sorted. generalize (@nil value) as acc.
  induction l as [|x l IH]; intros acc; cbn [sorted_from]; [discriminate|].
  destruct (sorted_insert x acc) as [acc'|e'] eqn:Hinsert; cbn [bind]; [apply IH|].
  intros H. injection H as <-. now apply sorted_insert_raises_TypeError in Hinsert.
Qed.

Lemma sorted_insert_nonempty (x : value) (acc acc' : list value) :
  sorted_insert x acc = Ok acc' -> acc' <> [].
Proof.
  destruct acc as [|y rest]; cbn [sorted_insert].
  - intros H. injection H as <-. discriminate.
  - destruct (py_lt x y) as [[|]|]; cbn [bind]; try discriminate.
    + intros H. injection H as <-. discriminate.
    + destruct (sorted_insert x rest); cbn [bind]; [|discriminate].
      intros H. injection H as <-. discriminate.
Qed.

(** A mapping cannot join a list that already has an element. *)
Lemma sorted_from_with_mapping (d : list (string * value)) (l acc : list value) :
  acc <> [] -> In (VDict d) l -> raises (sorted_from acc l) = true.
Proof.
  revert acc. induction l as [|x l IH]; intros acc Hacc Hin; [destruct Hin|].
  cbn [sorted_from]. destruct Hin as [->|Hin].
  - destruct acc as [|y rest]; [congruence|]. cbn [sorted_insert].
    now rewrite py_lt_mapping_left.
  - destruct (sorted_insert x acc) as [acc'|e] eqn:Hinsert; cbn [bind]; [|reflexivity].
    apply IH; [|exact Hin]. now apply sorted_insert_nonempty in Hinsert.
Qed.

Lemma sorted_with_mapping (d : list (string * value)) (l : list value) :
  2 <= List.length l -> In (VDict d) l -> sorted l = Raise TypeError.
Proof.
  intros Hlen Hin.
  assert (Hraises : raises (sorted l) = true).
  { destruct l as [|x [|y rest]]; cbn [List.length] in Hlen; try lia.
    unfold sorted. cbn [sorted_from sorted_insert bind].
    destruct Hin as [->|Hin].
    - cbn [sorted_insert]. now rewrite py_lt_mapping_right.
    - change (raises (sorted_from [x] (y :: rest)) = true).
      apply sorted_from_with_mapping with d; [discriminate | exact Hin]. }
  destruct (sorted l) as [l'|e] eqn:Hsorted; [discriminate|].
  now rewrite (sorted_raises_TypeError l e Hsorted).
Qed.

Section ListsAndShapes.
Context {engine : ReEngine}.
Variable authorization_context : value.

(** X27: a list of two or more elements one of which is a mapping cannot be
    sorted.  On such a context list [match_item] raises [TypeError] whatever
    the rule fragment is, and so does [find_item] on a context mapping whose
    first value is such a list, when [match_item] returns false on the
    mapping itself: the mappings of the list are never searched. *)
Theorem list_with_a_mapping_raises (role_chunk : value) (l : list value)
        (d : list (string * value)) :
  2 <= List.length l ->
  In (VDict d) l ->
  (forall mode,
      match_item authorization_context role_chunk (VList l) mode = Raise TypeError)
  /\ (forall k more mode,
        match_item authorization_context role_chunk (VDict ((k, VList l) :: more))
          (set_mode mode) = Ok false ->
        find_item authorization_context role_chunk (VDict ((k, VList l) :: more)) mode
        = Raise TypeError).
Proof.
  intros Hlen Hin.
  assert (Hmatch : forall mode,
             match_item authorization_context role_chunk (VList l) mode = Raise TypeError).
  { intros mode. rewrite match_item_unfold. cbn [bound_context].
    assert (Hleaf : match_item_leaf role_chunk (VList l) mode = Raise TypeError).
    { unfold match_item_leaf, preprocess_to_list.
      rewrite (sorted_with_mapping d l Hlen Hin).
      destruct role_chunk as [| | | |rl|]; cbn [bind]; try reflexivity.
      destruct (sorted rl) as [rl'|e] eqn:Hsorted; cbn [bind]; [reflexivity|].
      now rewrite (sorted_raises_TypeError rl e Hsorted). }
    destruct role_chunk; exact Hleaf. }
  split; [exact Hmatch|].
  intros k more mode Hroot. unfold find_item. cbn [bound_context].
  rewrite find_item_in_unfold, Hroot. cbn [bind for_in snd].
  unfold find_value_step. now rewrite Hmatch.
Qed.

(** X28: shapes that differ do not match.  A rule mapping with at least one
    key does not match a context that is no mapping, and a rule list does not
    match a context that is no list; the result is false, not an exception,
    as long as the lists involved can be sorted. *)
Theorem shapes_must_agree (auth_context : value) (mode : string) :
  (forall l, bound_context authorization_context auth_context = VList l ->
             raises (sorted l) = false) ->
  (forall role_items,
      role_items <> [] ->
      is_dict (bound_context authorization_context auth_context) = false ->
      match_item authorization_context (VDict role_items) auth_context mode = Ok false)
  /\ (forall role_list,
        raises (sorted role_list) = false ->
        is_list (bound_context authorization_context auth_context) = false ->
        match_item authorization_context (VList role_list) auth_context mode = Ok false).
Proof.
  intros Hsortable. split.
  - intros role_items Hnonempty Hshape. rewrite match_item_unfold.
    destruct (bound_context authorization_context auth_context) as [| | | |l|d] eqn:Hbound;
      try discriminate;
      try (unfold match_item_leaf, preprocess_to_list, match_item_tail; cbn;
           destruct role_items; [congruence|reflexivity]).
    specialize (Hsortable l eq_refl).
    unfold match_item_leaf, preprocess_to_list.
    destruct (sorted l) as [l'|e]; [|discriminate]. cbn.
    destruct role_items; [congruence|reflexivity].
  - intros role_list Hrole Hshape. rewrite match_item_unfold.
    unfold match_item_leaf, preprocess_to_list.
    destruct (sorted role_list) as [role_sorted|e]; [|discriminate].
    destruct (bound_context authorization_context auth_context) as [| | | |l|d];
      try discriminate; reflexivity.
Qed.
End ListsAndShapes.

(** ** Construction followed by resolution *)

Section ConstructThenResolve.
Context {engine : ReEngine}.
Variable json_parse : string -> option value.
Variable rm_get_roles : list Role.t.

(** X29: constructing the checker for one role and resolving.  When the
    context text and the rule text of the role are JSON and the parsed rule
    evaluates on the parsed context without raising, the constructor
    succeeds, the getters return the parsed context and the role, and
    [get_user_roles] returns the pair (id, name) of the role if its rule
    holds and nothing if it does not. *)
Theorem construct_then_resolve (h : heap) (auth_context : string) (context : value)
        (address : nat) (role : Role.t) (text : string) (rule : value) (verdict : bool) :
  json_parse auth_context = Some context ->
  nth_error h address = Some role ->
  Role.rule role = VStr text ->
  json_parse text = Some rule ->
  check_rule context rule = Ok verdict ->
  exists h' self,
    __init__ json_parse rm_get_roles h auth_context (OneRole address) = (h', Ok self)
    /\ get_authorization_context self = context
    /\ get_roles self = [address]
    /\ get_user_roles h' self
       = Ok (if verdict then [(Role.id role, Role.name role)] else []).
Proof.
  intros Hcontext Hrole Htext Hrule Hverdict.
  exists (heap_set h address (Role.set_rule role rule)),
         {| self_authorization_context := context; self_roles_list := [address] |}.
  split; [|split; [reflexivity|split; [reflexivity|]]].
  - unfold __init__, json_loads. rewrite Hcontext. cbn [parse_rules].
    unfold parse_rule, json_loads. now rewrite Hrole, Htext, Hrule.
  - unfold get_user_roles. cbn [self_roles_list user_roles_of self_authorization_context].
    rewrite (nth_error_heap_set_same h address role _ Hrole).
    cbn [Role.set_rule Role.rule Role.id Role.name]. rewrite Hverdict. reflexivity.
Qed.
End ConstructThenResolve.

(** The instance of [list_with_a_mapping_raises] for a list of two empty
    mappings, under the key [agents]. *)
Lemma list_with_a_mapping_raises_witness :
  match_item (engine := py_re) (VDict []) (VStr "x") (VList [VDict []; VDict []]) "MATCH"
  = Raise TypeError
  /\ find_item (engine := py_re) (VDict []) (VStr "x")
       (VDict [("agents", VList [VDict []; VDict []])]) "FIND"
     = Raise TypeError.
Proof.
  destruct (list_with_a_mapping_raises (engine := py_re) (VDict []) (VStr "x")
              [VDict []; VDict []] []) as (Hmatch & Hfind).
  - simpl. lia.
  - left. reflexivity.
  - split; [exact (Hmatch "MATCH") | exact (Hfind "agents" [] "FIND" eq_refl)].
Defined.

(** The instance of [shapes_must_agree] for the context value [x]. *)
Lemma shapes_must_agree_witness :
  match_item (engine := py_re) (VDict []) (VDict [("user", VStr "x")]) (VStr "x") "MATCH"
  = Ok false
  /\ match_item (engine := py_re) (VDict []) (VList [VStr "x"]) (VStr "x") "MATCH"
     = Ok false.
Proof.
  destruct (shapes_must_agree (engine := py_re) (VDict []) (VStr "x") "MATCH")
    as (Hmapping & Hlist).
  - intros l H. discriminate H.
  - split; [apply Hmapping; [discriminate | reflexivity] | apply Hlist; reflexivity].
Defined.

(** The instance of [construct_then_resolve] for one role whose rule text is
    [{}]: the rule has no clause and does not hold. *)
Lemma construct_then_resolve_witness :
  exists h' self,
    __init__ json_literals [] one_text_role "{}" (OneRole 0) = (h', Ok self)
    /\ get_authorization_context self = VDict []
    /\ get_roles self = [0]
    /\ get_user_roles (engine := py_re) h' self
       = Ok [].
Proof.
  apply (construct_then_resolve (engine := py_re) json_literals [] one_text_role "{}"
           (VDict []) 0
           {| Role.id := 1; Role.name := "administrator"; Role.rule := VStr "{}" |}
           "{}" (VDict []) false); reflexivity.
Defined.
